(** * Regression estimators of nistats/regression.py

    A shallow embedding of [OLSModel], [ARModel], [RegressionResults] and
    [SimpleRegressionResults], and the properties their specification
    states about them.

    Conventions of the embedding.
    - Floating-point scalars are an abstract type [num] with the
      operations the module applies to them ([Numerics]).  No algebraic
      law is assumed of them: where a statement needs one, it is an
      explicit hypothesis of that statement.
    - A NumPy array is the list of its items along axis 0 together with
      the shape of one item ([array]): a 1-D array has scalar items, a
      2-D array has rows.  Every function of the module works along
      axis 0, so one definition serves the design (2-D) and a response
      (1-D or 2-D).
    - The routines of the numerics library that the module only calls
      ([pinv], [matrix_rank]) are parameters ([Linalg]).
    - A Python exception is a value of [exn]; code that can raise
      returns [res]. *)

From Stdlib Require Import ZArith QArith Qabs.
From stdpp Require Import base gmap strings list fin_maps.


(** ** Exceptions *)

Inductive exn : Type :=
| ValueError (msg : string)
| KeyError (key : string)
| AttributeError (attr : string)
| IndexError (msg : string)
| TypeError (msg : string).

Inductive res (A : Type) : Type :=
| Ok (a : A)
| Raise (e : exn).

Arguments Ok {A} a.
Arguments Raise {A} e.

#[global] Instance res_ret : MRet res := fun _ a => Ok a.
#[global] Instance res_bind : MBind res := fun _ _ f m =>
  match m with
  | Ok a => f a
  | Raise e => Raise e
  end.

#[global] Instance res_fmap : FMap res := fun _ _ f m =>
  match m with
  | Ok a => Ok (f a)
  | Raise e => Raise e
  end.

(** [for x in xs: acc = body(acc, x)], where the body can raise. *)
Fixpoint for_each {A B : Type} (body : A → B → res A) (xs : list B) (acc : A)
  : res A :=
  match xs with
  | [] => Ok acc
  | x :: xs' => acc' ← body acc x; for_each body xs' acc'
  end.

(** ** Scalars *)

Class Numerics : Type := {
  num : Type;
  zero : num;
  one : num;
  fadd : num → num → num;
  fsub : num → num → num;
  fmul : num → num → num;
  fdiv : num → num → num;
  fabs : num → num;
  fsqrt : num → num;
  fln : num → num;
  fpi : num;
  feps : num;
  of_int : Z → num;
  fltb : num → num → bool
}.

(** ** Arrays *)

Section Broadcasting.
Context {A : Type}.

(** The length two broadcast axes of lengths [a] and [b] agree on. *)
Definition bdim (a b : nat) : option nat :=
  if decide (a = b) then Some a
  else if decide (a = 1) then Some b
  else if decide (b = 1) then Some a
  else None.

(** The inner loop of an elementwise binary operation on one axis: a
    single item is repeated against the other operand. *)
Definition zip_bcast (g : A → A → A) (la lb : list A) : list A :=
  if decide (length la = length lb) then zip_with g la lb
  else match la, lb with
       | [a], _ => g a <$> lb
       | _, [b] => (fun x => g x b) <$> la
       | _, _ => zip_with g la lb
       end.
End Broadcasting.

(** What the items of an array are: scalars (1-D array) or rows (2-D
    array).  [tail_shape] is the shape of an item, [item_map] and
    [item_zip] are the elementwise inner loops. *)
Class Item `{Numerics} (V : Type) : Type := {
  tail_shape : Type;
  tail_shape_eq_dec :: EqDecision tail_shape;
  item_shape : V → tail_shape;
  tail_broadcast : tail_shape → tail_shape → option tail_shape;
  item_zeros : tail_shape → V;
  item_map : (num → num) → V → V;
  item_zip : (num → num → num) → V → V → V;
  tail_broadcast_diag : ∀ s, tail_broadcast s s = Some s;
  tail_broadcast_absorb : ∀ a b t,
    tail_broadcast a b = Some t → tail_broadcast b t = Some t;
  item_shape_map : ∀ f v, item_shape (item_map f v) = item_shape v;
  item_shape_zip : ∀ f a b t,
    tail_broadcast (item_shape a) (item_shape b) = Some t →
    item_shape (item_zip f a b) = t
}.

Lemma bdim_diag (a : nat) : bdim a a = Some a.
Proof. unfold bdim. by rewrite decide_True. Qed.

Lemma bdim_absorb (a b t : nat) : bdim a b = Some t → bdim b t = Some t.
Proof.
  unfold bdim. intros Hb. repeat case_decide; simplify_eq; done.
Qed.

Lemma length_zip_bcast {A : Type} (g : A → A → A) (la lb : list A) (t : nat) :
  bdim (length la) (length lb) = Some t → length (zip_bcast g la lb) = t.
Proof.
  unfold bdim, zip_bcast. intros Hb.
  repeat case_decide; simplify_eq.
  - rewrite length_zip_with. lia.
  - destruct la as [|a [|a' la]]; simplify_eq/=. by rewrite length_fmap.
  - destruct lb as [|b [|b' lb]]; simplify_eq/=.
    destruct la as [|a [|a' la]]; simplify_eq/=;
      rewrite ?length_fmap; simpl; done.
Qed.

Section Items.
Context `{Numerics}.

#[global, refine] Instance item_scalar : Item num := {|
  tail_shape := unit;
  item_shape := fun _ => tt;
  tail_broadcast := fun _ _ => Some tt;
  item_zeros := fun _ => zero;
  item_map := fun f x => f x;
  item_zip := fun f x y => f x y
|}.
Proof.
  - by intros [].
  - by intros [] [] [].
  - done.
  - by intros ? ? ? [].
Defined.

#[global, refine] Instance item_row : Item (list num) := {|
  tail_shape := nat;
  item_shape := length;
  tail_broadcast := bdim;
  item_zeros := fun m => replicate m zero;
  item_map := fun f row => f <$> row;
  item_zip := fun f ra rb => zip_bcast f ra rb
|}.
Proof.
  - apply bdim_diag.
  - apply bdim_absorb.
  - intros f v. apply length_fmap.
  - intros f a b t. apply length_zip_bcast.
Defined.
End Items.

(** An array: its items along axis 0 and the shape of one item, so that
    the shape is [(length items, ishp)] also when there is no item. *)
Record array `{Numerics} (V : Type) `{!Item V} : Type := mk_array {
  items : list V;
  ishp : tail_shape
}.

Arguments mk_array {_ V _} items ishp.
Arguments items {_ V _} a.
Arguments ishp {_ V _} a.

(** A 2-D array: its items are rows, [ishp] is the number of columns. *)
Abbreviation matrix := (array (list num)).

Section NumPy.
Context `{Numerics}.
Context {V : Type} `{!Item V}.

(** [A.shape[0]] *)
Definition shape0 (A : array V) : nat := length (items A).

(** Elementwise binary operation [A op B] with NumPy's broadcasting of
    axes of length one. *)
Definition broadcast2 (f : num → num → num) (A B : array V)
  : res (array V) :=
  match bdim (shape0 A) (shape0 B), tail_broadcast (ishp A) (ishp B) with
  | Some _, Some s =>
      Ok (mk_array (zip_bcast (item_zip f) (items A) (items B)) s)
  | _, _ => Raise (ValueError "operands could not be broadcast together")
  end.

(** [A - B] *)
Definition subtract : array V → array V → res (array V) := broadcast2 fsub.

(** [A op v] where [v] has the shape of one item of [A]: [v] is
    repeated along axis 0. *)
Definition broadcast_item (f : num → num → num) (A : array V) (v : V)
  : res (array V) :=
  match tail_broadcast (ishp A) (item_shape v) with
  | Some s => Ok (mk_array ((fun a => item_zip f a v) <$> items A) s)
  | None => Raise (ValueError "operands could not be broadcast together")
  end.

(** [u op v] on two values of the shape of an item. *)
Definition item_op (f : num → num → num) (u v : V) : res V :=
  match tail_broadcast (item_shape u) (item_shape v) with
  | Some _ => Ok (item_zip f u v)
  | None => Raise (ValueError "operands could not be broadcast together")
  end.

(** [c * A] for a scalar [c] *)
Definition scale (c : num) (A : array V) : array V :=
  mk_array (item_map (fmul c) <$> items A) (ishp A).

(** [A ** 2] *)
Definition square (A : array V) : array V :=
  mk_array (item_map (fun x => fmul x x) <$> items A) (ishp A).

(** [np.sum(A, 0)]: the items are added up in index order; the sum of
    no item is the zero item. *)
Definition sum0 (A : array V) : V :=
  match items A with
  | [] => item_zeros (ishp A)
  | v :: vs => foldl (item_zip fadd) v vs
  end.

(** [A[j:]] *)
Definition slice_from (j : nat) (A : array V) : array V :=
  mk_array (drop j (items A)) (ishp A).

(** [A[0:-j]] for [j >= 1] *)
Definition slice_until_back (j : nat) (A : array V) : array V :=
  mk_array (take (shape0 A - j) (items A)) (ishp A).

(** [A[j:] = B].  In this module the right-hand side always has the
    shape of the slice it replaces. *)
Definition assign_from (j : nat) (A B : array V) : res (array V) :=
  if decide (shape0 B = shape0 (slice_from j A) ∧ ishp B = ishp A)
  then Ok (mk_array (take j (items A) ++ items B) (ishp A))
  else Raise (ValueError "could not broadcast input array").

(** [A / c] and the like: a scalar function applied to every element
    of a value of the shape of an item. *)
Definition item_div (v : V) (c : num) : V := item_map (fun x => fdiv x c) v.

(** One item of [np.dot(M, A)]: the items of [A] weighted by one row of
    [M] and added up in index order. *)
Definition lincomb (row : list num) (A : array V) : V :=
  match zip_with (fun r a => item_map (fmul r) a) row (items A) with
  | [] => item_zeros (ishp A)
  | t :: ts => foldl (item_zip fadd) t ts
  end.

(** [np.dot(M, A)] for a 2-D [M]: the last axis of [M] is contracted
    with axis 0 of [A]; the two lengths must agree. *)
Definition dot (M : matrix) (A : array V) : res (array V) :=
  if decide (ishp M = shape0 A)
  then Ok (mk_array ((fun row => lincomb row A) <$> items M) (ishp A))
  else Raise (ValueError "shapes not aligned").
End NumPy.

Section NumPy2D.
Context `{Numerics}.

(** [np.transpose(M)] of a 2-D array *)
Definition transpose (M : matrix) : matrix :=
  mk_array ((fun j => (fun row => nth j row zero) <$> items M)
              <$> seq 0 (ishp M))
           (shape0 M).

(** [np.abs(M).sum()]: every element, in row-major order *)
Definition abs_sum (M : matrix) : num :=
  foldl fadd zero (fabs <$> concat (items M)).
End NumPy2D.

(** The numerics library's routines that the module calls and does not
    define: [scipy.linalg.pinv] and [numpy.linalg.matrix_rank] (with its
    tolerance argument). *)
Class Linalg `{Numerics} : Type := {
  pinv : matrix → matrix;
  matrix_rank : matrix → num → Z
}.

(** ** The estimators: [OLSModel] and [ARModel] *)

(** The class of an estimator and the attributes its own constructor
    sets before the shared initialisation: none for [OLSModel], [order]
    and [rho] for [ARModel]. *)
Inductive model_kind `{Numerics} : Type :=
| OLS
| AR (order : Z) (rho : list num).

Section Whiten.
Context `{Numerics}.
Context {V : Type} `{!Item V}.

(** [rho[i]] on a 1-D array, for [i >= 0] *)
Definition getitem (rho : list num) (i : nat) : res num :=
  match rho !! i with
  | Some r => Ok r
  | None => Raise (IndexError "index out of bounds")
  end.

(** [OLSModel.whiten] *)
Definition OLSModel_whiten (X : array V) : res (array V) := Ok X.

(** [ARModel.whiten]: [_X] starts as a copy of [X]; lag [i + 1] rewrites
    the rows of [_X] from [i + 1] on, reading the untouched [X]. *)
Definition ARModel_whiten (order : Z) (rho : list num) (X : array V)
  : res (array V) :=
  for_each
    (fun _X i =>
       r ← getitem rho i;
       d ← subtract (slice_from (S i) _X)
                    (scale r (slice_until_back (S i) X));
       assign_from (S i) _X d)
    (seq 0 (Z.to_nat order)) X.

(** [self.whiten(X)]: the method of the estimator's class *)
Definition whiten (k : model_kind) (X : array V) : res (array V) :=
  match k with
  | OLS => OLSModel_whiten X
  | AR order rho => ARModel_whiten order rho X
  end.
End Whiten.

Record estimator `{Numerics} : Type := mk_estimator {
  kind : model_kind;
  design : matrix;
  wdesign : matrix;
  calc_beta : matrix;
  normalized_cov_beta : matrix;
  df_total : Z;
  df_model : Z;
  df_resid : Z
}.

(** What [ARModel.__init__] can be given as [rho]: a Python [int], [bool]
    or [float], or an array-like, which is the N-D array [np.asarray]
    makes of it (its shape and its elements in row-major order). *)
Record ndarray `{Numerics} : Type := mk_ndarray {
  nd_shape : list nat;
  nd_data : list num
}.

Inductive pyobj `{Numerics} : Type :=
| PyInt (k : Z)
| PyBool (b : bool)
| PyFloat (x : num)
| PyArray (a : ndarray).

Arguments mk_ndarray {_} nd_shape nd_data.
Arguments mk_estimator {_} kind design wdesign calc_beta normalized_cov_beta
  df_total df_model df_resid.

Section Construction.
Context `{Numerics} `{!Linalg}.

(** The number a Python [bool] is in arithmetic *)
Definition of_bool (b : bool) : num := if b then one else zero.

(** [np.asarray(rho)]: a scalar becomes a 0-D array *)
Definition asarray (rho : pyobj) : ndarray :=
  match rho with
  | PyInt k => mk_ndarray [] [of_int k]
  | PyBool b => mk_ndarray [] [of_bool b]
  | PyFloat x => mk_ndarray [] [x]
  | PyArray a => a
  end.

(** [np.squeeze(a)]: the axes of length one are dropped *)
Definition squeeze (a : ndarray) : ndarray :=
  mk_ndarray (filter (fun d => d ≠ 1) (nd_shape a)) (nd_data a).

(** [np.zeros(k, np.float64)] *)
Definition zeros (k : Z) : res (list num) :=
  if decide (k < 0)%Z
  then Raise (ValueError "negative dimensions are not allowed")
  else Ok (replicate (Z.to_nat k) zero).

(** [OLSModel.initialize], run on an object of class [k] *)
Definition OLSModel_initialize (k : model_kind) (design : matrix)
  : res estimator :=
  wdesign ← whiten k design;
  let calc_beta := pinv wdesign in
  normalized_cov_beta ← dot calc_beta (transpose calc_beta);
  let df_total := Z.of_nat (shape0 wdesign) in
  let eps := fmul (abs_sum design) feps in
  let df_model := matrix_rank design eps in
  let df_resid := (df_total - df_model)%Z in
  Ok (mk_estimator k design wdesign calc_beta normalized_cov_beta
                   df_total df_model df_resid).

(** [OLSModel.__init__] *)
Definition OLSModel_init (design : matrix) : res estimator :=
  OLSModel_initialize OLS design.

(** [ARModel.__init__] *)
Definition ARModel_init (design : matrix) (rho : pyobj) : res estimator :=
  match rho with
  | PyInt k =>
      let order := k in
      rho ← zeros order;
      OLSModel_initialize (AR order rho) design
  | _ =>
      let rho := squeeze (asarray rho) in
      if decide (length (nd_shape rho) ∈ [0; 1]) then
        let rho :=
          if decide (nd_shape rho = []) then mk_ndarray [1] (nd_data rho)
          else rho in
        match nd_shape rho with
        | order :: _ =>
            OLSModel_initialize (AR (Z.of_nat order) (nd_data rho)) design
        | [] => Raise (IndexError "tuple index out of range")
        end
      else Raise (ValueError "AR parameters must be a scalar or a vector")
  end.
End Construction.

(** Modelled from the spec: [positive_reciprocal] of module [utils], of
    which the spec says that it returns [1/x] where [x > 0] and [0]
    elsewhere, elementwise. *)
Definition positive_reciprocal `{Numerics} {V : Type} `{!Item V} (X : V) : V :=
  item_map (fun x => if fltb zero x then fdiv one x else zero) X.

(** ** Full results: [RegressionResults] *)

Module RegressionResults.
(** Modelled from the spec: the constructor of the base class
    [LikelihoodModelResults] of module [model], of which the spec says
    that a full result owns the coefficient vector, the original
    response, a back-reference to the estimator that produced it, the
    covariance, the dispersion and the optional nuisance parameters.
    [RegressionResults.__init__] adds [wY], [wresid] and [wdesign]. *)
Record t `{Numerics} {V : Type} `{!Item V} : Type := init {
  theta : array V;
  Y : array V;
  model : estimator;
  wY : array V;
  wresid : array V;
  cov : matrix;
  dispersion : V;
  nuisance : option (gmap string V);
  wdesign : matrix := wdesign model
}.

Arguments t {_} V {_}.
Arguments init {_ V _} theta Y model wY wresid cov dispersion nuisance.

Section Properties.
Context `{Numerics} {V : Type} `{!Item V}.

(** [predicted]: [np.dot(self.wdesign, self.theta)] *)
Definition predicted (self : t V) : res (array V) :=
  let beta := theta self in
  let X := wdesign self in
  dot X beta.

(** [resid]: [self.Y - self.predicted] *)
Definition resid (self : t V) : res (array V) :=
  p ← predicted self;
  subtract (Y self) p.

(** [norm_resid]:
    [self.resid * positive_reciprocal(np.sqrt(self.dispersion))] *)
Definition norm_resid (self : t V) : res (array V) :=
  e ← resid self;
  broadcast_item fmul e
    (positive_reciprocal (item_map fsqrt (dispersion self))).

(** [SSE]: [(self.wresid ** 2).sum(0)] *)
Definition SSE (self : t V) : V := sum0 (square (wresid self)).
End Properties.
End RegressionResults.

Section Fitting.
Context `{Numerics} `{!Linalg} {V : Type} `{!Item V}.

(** [OLSModel.logL] *)
Definition OLSModel_logL (self : estimator) (beta : array V) (Y : array V)
    (nuisance : option (gmap string V)) : res V :=
  let X := wdesign self in
  wY ← whiten (kind self) Y;
  p ← dot X beta;
  r ← subtract wY p;
  let n := df_total self in
  let SSE := sum0 (square r) in
  sigmasq ← match nuisance with
            | None => Ok (item_div SSE (of_int n))
            | Some d =>
                match d !! "sigma" with
                | Some sigma => Ok sigma
                | None => Raise (KeyError "sigma")
                end
            end;
  let a := item_map (fmul (fdiv (of_int (- n)) (of_int 2)))
             (item_map fln (item_map (fmul (fmul (of_int 2) fpi)) sigmasq)) in
  b ← item_op fdiv SSE (item_map (fmul (of_int 2)) sigmasq);
  item_op fsub a b.

(** [OLSModel.fit] *)
Definition OLSModel_fit (self : estimator) (Y : array V)
  : res (RegressionResults.t V) :=
  wY ← whiten (kind self) Y;
  beta ← dot (calc_beta self) wY;
  p ← dot (wdesign self) beta;
  wresid ← subtract wY p;
  let dispersion :=
    item_div (sum0 (square wresid))
             (of_int (Z.of_nat (shape0 (wdesign self))
                      - Z.of_nat (ishp (wdesign self)))) in
  Ok (RegressionResults.init beta Y self wY wresid
        (normalized_cov_beta self) dispersion None).
End Fitting.

(** ** Compact results: [SimpleRegressionResults] *)

Module SimpleRegressionResults.
(** The values an attribute of a compact result can hold. *)
Inductive value `{Numerics} {V : Type} `{!Item V} : Type :=
| VArray (a : array V)
| VMatrix (m : matrix)
| VItem (v : V)
| VNuisance (d : option (gmap string V))
| VInt (z : Z)
| VModel (e : estimator).

Arguments value {_} V {_}.

Section Methods.
Context `{Numerics} {V : Type} `{!Item V}.

(** The attributes of an instance.  [__init__] does not call the
    constructor of the base class: an instance has the attributes
    [__init__] itself assigns and no other. *)
Definition t : Type := gmap string (value V).

(** [self.name] *)
Definition getattr (self : t) (name : string) : res (value V) :=
  match self !! name with
  | Some v => Ok v
  | None => Raise (AttributeError name)
  end.

(** [SimpleRegressionResults.__init__] *)
Definition init (results : RegressionResults.t V) : t :=
  let self : t := ∅ in
  let self := <["theta" := VArray (RegressionResults.theta results)]> self in
  let self := <["cov" := VMatrix (RegressionResults.cov results)]> self in
  let self :=
    <["dispersion" := VItem (RegressionResults.dispersion results)]> self in
  let self :=
    <["nuisance" := VNuisance (RegressionResults.nuisance results)]> self in
  let df_total := Z.of_nat (shape0 (RegressionResults.Y results)) in
  let self := <["df_total" := VInt df_total]> self in
  let df_model := df_model (RegressionResults.model results) in
  let self := <["df_model" := VInt df_model]> self in
  <["df_resid" := VInt (df_total - df_model)]> self.

(** [SimpleRegressionResults.logL] *)
Definition logL (self : t) (Y : array V) : res V :=
  Raise (ValueError "can not use this method for simple results").

(** [SimpleRegressionResults.predicted] *)
Definition predicted (self : t) : res (array V) :=
  beta ← getattr self "theta";
  model ← getattr self "model";
  match model, beta with
  | VModel m, VArray beta => let X := design m in dot X beta
  | VModel _, _ => Raise (TypeError "unsupported operand for dot")
  | _, _ => Raise (AttributeError "design")
  end.
End Methods.
End SimpleRegressionResults.

(** ** An exact instance for worked examples

    Rational scalars, kept in lowest terms so that equal values are equal
    terms.  Sums, differences, products and quotients are exact; the
    root is exact on squares of rationals and rounded down otherwise; the
    logarithm is its first-order expansion at one.  The examples use
    designs with orthonormal columns, for which the pseudoinverse is the
    transpose and the rank is the number of columns. *)
Module Rat.
Definition sqrt (q : Q) : Q :=
  match Qnum q with
  | Zpos _ => Qred (Z.sqrt (Qnum q * Zpos (Qden q)) # Qden q)
  | _ => 0%Q
  end.

Definition ltb (a b : Q) : bool :=
  match Qcompare a b with
  | Lt => true
  | _ => false
  end.

#[global] Instance numerics : Numerics := {|
  num := Q;
  zero := 0%Q;
  one := 1%Q;
  fadd := fun a b => Qred (a + b);
  fsub := fun a b => Qred (a - b);
  fmul := fun a b => Qred (a * b);
  fdiv := fun a b => Qred (a / b);
  fabs := fun a => Qred (Qabs a);
  fsqrt := sqrt;
  fln := fun a => Qred (a - 1);
  fpi := (355 # 113)%Q;
  feps := (1 # 4503599627370496)%Q;
  of_int := inject_Z;
  fltb := ltb
|}.

#[global] Instance linalg : Linalg := {|
  pinv := transpose;
  matrix_rank := fun M _ => Z.of_nat (ishp M)
|}.

(** A 1-D array and a 2-D array from their literal contents *)
Definition vec (xs : list Q) : array Q := mk_array xs tt.
Definition mat (ncols : nat) (rows : list (list Q)) : matrix :=
  mk_array rows ncols.

(** A design of three observations and two orthonormal columns, a 1-D
    and a 2-D response for it, and the estimator [OLSModel] makes. *)
Definition D0 : matrix := mat 2 [[1; 0]; [0; 1]; [0; 0]]%Q.
Definition Y0 : array Q := vec [3; 4; 5]%Q.
Definition Y1 : matrix := mat 2 [[1; 2]; [3; 4]; [5; 6]]%Q.
Definition est0 : estimator :=
  mk_estimator OLS D0 D0
    (mat 3 [[1; 0; 0]; [0; 1; 0]]%Q) (mat 2 [[1; 0]; [0; 1]]%Q) 3 2 1.
End Rat.

(** * Properties *)

(** ** The exception monad *)

Lemma bind_Ok {A B : Type} (a : A) (f : A → res B) : (Ok a ≫= f) = f a.
Proof. reflexivity. Qed.

Lemma bind_Raise {A B : Type} (e : exn) (f : A → res B) :
  (Raise e ≫= f) = Raise e.
Proof. reflexivity. Qed.

Lemma bind_Ok_inv {A B : Type} (m : res A) (f : A → res B) (b : B) :
  m ≫= f = Ok b → ∃ a, m = Ok a ∧ f a = Ok b.
Proof. destruct m as [a|e]; [by exists a | done]. Qed.

Lemma zip_bcast_same_length {A : Type} (g : A → A → A) (la lb : list A) :
  length la = length lb → zip_bcast g la lb = zip_with g la lb.
Proof. intros Hl. unfold zip_bcast. by rewrite decide_True. Qed.

(** ** Whitening *)

Section WhitenFacts.
Context `{Numerics} {V : Type} `{!Item V}.

(** The recurrence of [ARModel.whiten] in the words of its
    specification.  Lag [i] with coefficient [r] leaves the rows before
    [i] as they are and subtracts, from every row [t >= i] of the
    filtered copy, [r] times row [t - i] of the original input. *)
Definition lag_step (i : nat) (r : num) (X acc : list V) : list V :=
  imap (fun t a =>
          if decide (i ≤ t)
          then from_option (fun x => item_zip fsub a (item_map (fmul r) x))
                           a (X !! (t - i))
          else a) acc.

(** The lags [1 .. p] with their coefficients [rho[0] .. rho[p - 1]],
    applied in increasing order to a copy of the input. *)
Definition whiten_recurrence (rho : list num) (X : array V) : array V :=
  mk_array
    (foldl (fun acc '(i, r) => lag_step i r (items X) acc)
           (items X) (zip (seq 1 (length rho)) rho))
    (ishp X).

Lemma getitem_Some (rho : list num) (i : nat) (r : num) :
  rho !! i = Some r → getitem rho i = Ok r.
Proof. intros Hi. unfold getitem. by rewrite Hi. Qed.

Lemma length_lag_step i r X acc : length (lag_step i r X acc) = length acc.
Proof. apply length_imap. Qed.

(** One pass of the loop body is one lag of the recurrence. *)
Lemma whiten_body_lag (i : nat) (r : num) (X _X : array V) :
  shape0 _X = shape0 X → ishp _X = ishp X →
  (d ← subtract (slice_from (S i) _X) (scale r (slice_until_back (S i) X));
   assign_from (S i) _X d)
  = Ok (mk_array (lag_step (S i) r (items X) (items _X)) (ishp X)).
Proof.
  intros Hn Hs. unfold shape0 in Hn.
  assert (Hlen : length (drop (S i) (items _X))
                 = length (item_map (fmul r)
                             <$> take (length (items X) - S i) (items X))).
  { rewrite length_drop, length_fmap, length_take. lia. }
  unfold subtract, broadcast2, shape0; simpl.
  rewrite Hlen at 1. rewrite bdim_diag, Hs, tail_broadcast_diag.
  rewrite bind_Ok. unfold assign_from, shape0; simpl.
  rewrite decide_True.
  2:{ split; [|done]. rewrite zip_bcast_same_length by done.
      rewrite length_zip_with, <- Hlen. lia. }
  f_equal. rewrite Hs. f_equal.
  rewrite zip_bcast_same_length by done.
  apply list_eq. intros t. unfold lag_step. rewrite list_lookup_imap.
  destruct (items _X !! t) as [a|] eqn:Ha; simpl.
  - apply lookup_lt_Some in Ha as Ht. case_decide as Hit.
    + rewrite lookup_app_r by (rewrite length_take; lia).
      rewrite length_take, Nat.min_l by lia.
      rewrite lookup_zip_with, lookup_drop, list_lookup_fmap.
      rewrite lookup_take_lt by lia.
      replace (S i + (t - S i)) with t by lia. rewrite Ha. simpl.
      destruct (lookup_lt_is_Some_2 (items X) (t - S i)) as [x Hx]; [lia|].
      by rewrite Hx.
    + rewrite lookup_app_l by (rewrite length_take; lia).
      rewrite lookup_take_lt by lia. done.
  - apply lookup_ge_None_2. apply lookup_ge_None_1 in Ha.
    rewrite length_app, length_take, length_zip_with, length_drop. lia.
Qed.

(** The loop of [ARModel.whiten], started at lag [j + 1] on a filtered
    copy [_X], runs the remaining lags of the recurrence. *)
Lemma whiten_loop_lags (rho : list num) (X : array V) :
  ∀ (k : list num) (j : nat) (_X : array V),
    (∀ i r, k !! i = Some r → rho !! (j + i) = Some r) →
    shape0 _X = shape0 X → ishp _X = ishp X →
    for_each
      (fun _X i =>
         r ← getitem rho i;
         d ← subtract (slice_from (S i) _X)
                      (scale r (slice_until_back (S i) X));
         assign_from (S i) _X d)
      (seq j (length k)) _X
    = Ok (mk_array
            (foldl (fun acc '(i, r) => lag_step i r (items X) acc)
                   (items _X) (zip (seq (S j) (length k)) k))
            (ishp X)).
Proof.
  induction k as [|r k IH]; intros j _X Hrho Hn Hs; simpl.
  - destruct _X as [xs sh]. simpl in *. by rewrite Hs.
  - pose proof (Hrho 0 r eq_refl) as Hj. rewrite Nat.add_0_r in Hj.
    rewrite (getitem_Some _ _ _ Hj), bind_Ok.
    rewrite whiten_body_lag, bind_Ok by done.
    rewrite IH; [done | | |done].
    + intros i r' Hi. replace (S j + i) with (j + S i) by lia.
      by apply (Hrho (S i)).
    + unfold shape0 in *. simpl. by rewrite length_lag_step.
Qed.

Lemma ARModel_whiten_take (order : Z) (rho : list num) (X : array V) :
  Z.to_nat order ≤ length rho →
  ARModel_whiten order rho X
  = Ok (whiten_recurrence (take (Z.to_nat order) rho) X).
Proof.
  intros Hp. unfold ARModel_whiten, whiten_recurrence.
  pose proof (whiten_loop_lags rho X (take (Z.to_nat order) rho) 0 X) as Hl.
  rewrite length_take, Nat.min_l in Hl by done.
  rewrite Hl; [by rewrite length_take, Nat.min_l by done| |done|done].
  intros i r Hi. simpl. rewrite lookup_take in Hi. by case_decide.
Qed.

Lemma ARModel_whiten_recurrence (rho : list num) (X : array V) :
  ARModel_whiten (Z.of_nat (length rho)) rho X = Ok (whiten_recurrence rho X).
Proof.
  rewrite ARModel_whiten_take by lia.
  by rewrite Nat2Z.id, firstn_all.
Qed.

Lemma for_each_app {A B : Type} (body : A → B → res A) (xs ys : list B)
    (acc : A) :
  for_each body (xs ++ ys) acc = for_each body xs acc ≫= for_each body ys.
Proof.
  revert acc. induction xs as [|x xs IH]; intros acc; simpl; [done|].
  destruct (body acc x) as [acc'|e]; simpl; [apply IH | done].
Qed.

(** When the loop ends without an exception, every [rho[i]] it read was
    there. *)
Lemma ARModel_whiten_Ok_order (order : Z) (rho : list num) (X W : array V) :
  ARModel_whiten order rho X = Ok W → Z.to_nat order ≤ length rho.
Proof.
  intros Hw. destruct (decide (Z.to_nat order ≤ length rho)) as [|Hgt]; [done|].
  exfalso. unfold ARModel_whiten in Hw.
  replace (Z.to_nat order)
    with (length rho + S (Z.to_nat order - S (length rho))) in Hw by lia.
  rewrite seq_app, for_each_app in Hw.
  pose proof (ARModel_whiten_take (Z.of_nat (length rho)) rho X) as Hl.
  unfold ARModel_whiten in Hl. rewrite Nat2Z.id in Hl.
  rewrite Hl in Hw by done. simpl in Hw.
  unfold getitem in Hw.
  rewrite (lookup_ge_None_2 rho (length rho)) in Hw by done.
  discriminate Hw.
Qed.

Lemma shape_whiten_recurrence (rho : list num) (X : array V) :
  shape0 (whiten_recurrence rho X) = shape0 X
  ∧ ishp (whiten_recurrence rho X) = ishp X.
Proof.
  split; [|done]. unfold whiten_recurrence, shape0. simpl.
  assert (∀ (lags : list (nat * num)) (X0 acc : list V),
            length (foldl (fun acc '(i, r) => lag_step i r X0 acc) acc lags)
            = length acc) as Hlen; [|apply Hlen].
  induction lags as [|[i r] lags IH]; intros X0 acc; simpl; [done|].
  by rewrite IH, length_lag_step.
Qed.

(** The coefficients an estimator's loop needs are there. *)
Definition kind_ok (k : model_kind) : Prop :=
  match k with
  | OLS => True
  | AR order rho => Z.to_nat order ≤ length rho
  end.

Lemma whiten_Ok_kind_ok (k : model_kind) (X W : array V) :
  whiten k X = Ok W → kind_ok k.
Proof.
  destruct k as [|order rho]; simpl; [done|]. apply ARModel_whiten_Ok_order.
Qed.

(** [self.whiten] returns an array of the shape of its argument. *)
Lemma whiten_shape (k : model_kind) (X : array V) :
  kind_ok k →
  ∃ W, whiten k X = Ok W ∧ shape0 W = shape0 X ∧ ishp W = ishp X.
Proof.
  destruct k as [|order rho]; simpl; intros Hk.
  - by exists X.
  - eexists. split; [by apply ARModel_whiten_take|].
    apply shape_whiten_recurrence.
Qed.
End WhitenFacts.

(** C2.  [ARModel.whiten] computes the cumulative recurrence of its
    specification: for an AR model of order [p = length rho], the lags
    [1 .. p] are applied in increasing order, lag [i] subtracting
    [rho[i - 1]] times the rows of the original input shifted forward by
    [i] from rows [i] onward of the filtered copy.  For [p = 0] the
    result is the input; for [p = 1] and [rho = [r]], row [0] of the
    result is row [0] of the input and row [t + 1] is
    [X[t + 1] - r * X[t]] (read elementwise on rows, and as the scalar
    expression on a 1-D input). *)
Theorem C2_ARModel_whiten_recurrence `{Numerics} :
  (∀ (V : Type) `(!Item V) (rho : list num) (X : array V),
     ARModel_whiten (Z.of_nat (length rho)) rho X
     = Ok (whiten_recurrence rho X))
  ∧ (∀ (V : Type) `(!Item V) (rho : list num) (X : array V),
       ARModel_whiten 0 rho X = Ok X)
  ∧ (∀ (V : Type) `(!Item V) (r : num) (X : array V),
       ∃ W, ARModel_whiten 1 [r] X = Ok W
            ∧ shape0 W = shape0 X ∧ ishp W = ishp X
            ∧ items W !! 0 = items X !! 0
            ∧ ∀ (t : nat) (x x' : V),
                items X !! t = Some x' → items X !! S t = Some x →
                items W !! S t
                = Some (item_zip fsub x (item_map (fmul r) x')))
  ∧ (∀ (r : num) (X : array num),
       ∃ W, ARModel_whiten 1 [r] X = Ok W
            ∧ items W !! 0 = items X !! 0
            ∧ ∀ (t : nat) (x x' : num),
                items X !! t = Some x' → items X !! S t = Some x →
                items W !! S t = Some (fsub x (fmul r x'))).
Proof.
  assert (Hone : ∀ (V : Type) `(!Item V) (r : num) (X : array V),
            ∃ W, ARModel_whiten 1 [r] X = Ok W
                 ∧ shape0 W = shape0 X ∧ ishp W = ishp X
                 ∧ items W !! 0 = items X !! 0
                 ∧ ∀ (t : nat) (x x' : V),
                     items X !! t = Some x' → items X !! S t = Some x →
                     items W !! S t
                     = Some (item_zip fsub x (item_map (fmul r) x'))).
  { intros V IV r X.
    exists (mk_array (lag_step 1 r (items X) (items X)) (ishp X)).
    split; [|split; [|split; [|split]]].
    - pose proof (whiten_loop_lags [r] X [r] 0 X) as Hl.
      simpl in Hl. unfold ARModel_whiten. simpl. by rewrite Hl.
    - unfold shape0. simpl. apply length_lag_step.
    - done.
    - simpl. unfold lag_step. rewrite list_lookup_imap.
      by destruct (items X !! 0).
    - intros t x x' Hx' Hx. simpl. unfold lag_step.
      rewrite list_lookup_imap, Hx. simpl.
      replace (t - 0) with t by lia. by rewrite Hx'. }
  split; [intros V IV; apply ARModel_whiten_recurrence|].
  split; [done|].
  split; [apply Hone|].
  intros r X. destruct (Hone num _ r X) as (W & HW & _ & _ & H0 & Hrow).
  exists W. split; [done|]. split; [done|]. intros t x x' Hx' Hx.
  by rewrite (Hrow t x x' Hx' Hx).
Qed.

(** ** Construction of an estimator *)

Section ConstructionFacts.
Context `{Numerics} `{!Linalg}.

Lemma shape0_transpose (M : matrix) : shape0 (transpose M) = ishp M.
Proof. unfold shape0, transpose. simpl. by rewrite length_fmap, length_seq. Qed.

(** [np.dot(P, np.transpose(P))] never finds its shapes misaligned. *)
Lemma dot_transpose_Ok (P : matrix) :
  dot P (transpose P)
  = Ok (mk_array ((fun row => lincomb row (transpose P)) <$> items P)
                 (shape0 P)).
Proof. unfold dot. by rewrite shape0_transpose, decide_True. Qed.

(** The attributes [OLSModel.initialize] sets on an estimator made from
    the design [D]. *)
Definition initialized (k : model_kind) (D : matrix) (est : estimator) : Prop :=
  kind est = k
  ∧ design est = D
  ∧ whiten k D = Ok (wdesign est)
  ∧ calc_beta est = pinv (wdesign est)
  ∧ dot (calc_beta est) (transpose (calc_beta est))
    = Ok (normalized_cov_beta est)
  ∧ df_total est = Z.of_nat (shape0 D)
  ∧ df_model est = matrix_rank D (fmul (abs_sum D) feps)
  ∧ df_resid est = (df_total est - df_model est)%Z.

Lemma OLSModel_initialize_Ok (k : model_kind) (D : matrix) :
  kind_ok k → ∃ est, OLSModel_initialize k D = Ok est ∧ initialized k D est.
Proof.
  intros Hk. destruct (whiten_shape k D Hk) as (wD & HwD & Hn & Hs).
  unfold OLSModel_initialize. rewrite HwD, bind_Ok, dot_transpose_Ok, bind_Ok.
  eexists. split; [reflexivity|].
  unfold initialized. simpl. rewrite dot_transpose_Ok, Hn.
  repeat split; done.
Qed.

Lemma OLSModel_initialize_inv (k : model_kind) (D : matrix) (est : estimator) :
  OLSModel_initialize k D = Ok est → kind_ok k ∧ initialized k D est.
Proof.
  intros Hinit.
  assert (kind_ok k) as Hk.
  { unfold OLSModel_initialize in Hinit.
    apply bind_Ok_inv in Hinit as (wD & HwD & _).
    by apply whiten_Ok_kind_ok in HwD. }
  split; [done|].
  destruct (OLSModel_initialize_Ok k D Hk) as (est' & Hest' & Hi).
  congruence.
Qed.

(** An estimator made by either constructor from the design [D]. *)
Definition built_from (D : matrix) (est : estimator) : Prop :=
  OLSModel_init D = Ok est ∨ ∃ rho, ARModel_init D rho = Ok est.

Lemma ARModel_init_initialize (D : matrix) (rho : pyobj) (est : estimator) :
  ARModel_init D rho = Ok est → ∃ k, OLSModel_initialize k D = Ok est.
Proof.
  unfold ARModel_init. intros Hinit.
  destruct rho as [k|b|x|a].
  1:{ apply bind_Ok_inv in Hinit as (rho & _ & Hinit). eauto. }
  all: case_decide; [|done];
    match type of Hinit with
    | match ?s with [] => _ | _ :: _ => _ end = _ =>
        destruct s as [|order ?]; [done | eauto]
    end.
Qed.

Lemma built_from_initialize (D : matrix) (est : estimator) :
  built_from D est → ∃ k, kind_ok k ∧ initialized k D est.
Proof.
  intros [Hols | [rho Har]].
  - exists OLS. by apply OLSModel_initialize_inv.
  - apply ARModel_init_initialize in Har as [k Hk].
    exists k. by apply OLSModel_initialize_inv.
Qed.

Lemma ARModel_init_int (D : matrix) (k : Z) :
  (0 ≤ k)%Z →
  ∃ est, ARModel_init D (PyInt k) = Ok est
         ∧ initialized (AR k (replicate (Z.to_nat k) zero)) D est.
Proof.
  intros Hk. unfold ARModel_init, zeros.
  rewrite decide_False by lia. rewrite bind_Ok.
  apply OLSModel_initialize_Ok. simpl. by rewrite length_replicate.
Qed.

(** A scalar handed to the coefficient path becomes the one coefficient
    of an order-1 model. *)
Lemma ARModel_init_scalar (D : matrix) (rho : pyobj) (c : num) :
  (∀ k, rho ≠ PyInt k) → asarray rho = mk_ndarray [] [c] →
  ∃ est, ARModel_init D rho = Ok est ∧ initialized (AR 1 [c]) D est.
Proof.
  intros Hint Harr.
  assert (ARModel_init D rho = OLSModel_initialize (AR 1 [c]) D) as ->.
  { unfold ARModel_init. destruct rho as [k|b|x|a]; [by destruct (Hint k)|..];
      rewrite Harr; reflexivity. }
  apply OLSModel_initialize_Ok. simpl. lia.
Qed.
End ConstructionFacts.

(** The coefficient path of [ARModel.__init__]: whatever is not a plain
    [int] is made an array and squeezed; its elements are the
    coefficients and its one remaining axis gives the order. *)
Lemma ARModel_init_coefficients `{Numerics} `{!Linalg}
    (D : matrix) (rho : pyobj) (est : estimator) :
  (∀ k, rho ≠ PyInt k) → ARModel_init D rho = Ok est →
  kind est
  = AR (Z.of_nat match nd_shape (squeeze (asarray rho)) with
                 | [] => 1
                 | order :: _ => order
                 end)
       (nd_data (asarray rho)).
Proof.
  intros Hint Hinit.
  assert (∀ k, OLSModel_initialize k D = Ok est → kind est = k) as Hkind.
  { intros k Hk. apply OLSModel_initialize_inv in Hk as [_ Hk]. apply Hk. }
  unfold ARModel_init in Hinit.
  destruct rho as [k|b|x|a]; [by destruct (Hint k)|..].
  all: case_decide; [|done].
  all: destruct (nd_shape (squeeze (asarray _))) as [|order sh] eqn:Hsh.
  all: rewrite ?decide_True in Hinit by done.
  all: rewrite ?decide_False in Hinit by done.
  all: simpl in Hinit, Hsh |- *; try rewrite Hsh in Hinit;
    by apply Hkind in Hinit.
Qed.

(** C6.  [ARModel.__init__] with a plain integer [rho = k] sets
    [order = k] and makes [rho] the zero vector of length [k]; with a
    scalar float [rho = c] it takes the coefficient path, where [c]
    becomes the coefficient sequence [[c]] of an order-1 model.  So
    [ARModel(X, 1)] and [ARModel(X, 1.0)] are different estimators: their
    coefficients are [[0.]] and [[1.]]. *)
Theorem C6_ARModel_init_int_or_float `{Numerics} `{!Linalg} :
  (∀ (D : matrix) (k : Z),
     (0 ≤ k)%Z →
     ∃ est, ARModel_init D (PyInt k) = Ok est
            ∧ kind est = AR k (replicate (Z.to_nat k) zero))
  ∧ (∀ (D : matrix) (c : num),
       ∃ est, ARModel_init D (PyFloat c) = Ok est ∧ kind est = AR 1 [c])
  ∧ (∀ (D : matrix),
       ∃ e1 e2, ARModel_init D (PyInt 1) = Ok e1
                ∧ ARModel_init D (PyFloat one) = Ok e2
                ∧ kind e1 = AR 1 [zero] ∧ kind e2 = AR 1 [one]
                ∧ (zero ≠ one → e1 ≠ e2)).
Proof.
  split; [|split].
  - intros D k Hk. destruct (ARModel_init_int D k Hk) as (est & Hest & Hi).
    exists est. split; [done | apply Hi].
  - intros D c.
    destruct (ARModel_init_scalar D (PyFloat c) c) as (est & Hest & Hi);
      [done | done |].
    exists est. split; [done | apply Hi].
  - intros D.
    destruct (ARModel_init_int D 1) as (e1 & He1 & Hi1); [lia|].
    destruct (ARModel_init_scalar D (PyFloat one) one) as (e2 & He2 & Hi2);
      [done | done |].
    exists e1, e2. destruct Hi1 as [Hk1 _]. destruct Hi2 as [Hk2 _].
    repeat split; try done.
    intros Hne Heq. subst e2. rewrite Hk1 in Hk2. by simplify_eq.
Qed.

(** C7, as amended.  An array-like [rho] whose shape, once its axes of
    length one are removed, is neither a scalar's nor 1-D (shape (2, 2)
    for one) makes [ARModel.__init__] raise [ValueError] at once: no
    estimator is made. *)
Theorem C7_ARModel_init_bad_shape `{Numerics} `{!Linalg}
    (D : matrix) (a : ndarray) :
  length (nd_shape (squeeze a)) ∉ [0; 1] →
  ARModel_init D (PyArray a)
  = Raise (ValueError "AR parameters must be a scalar or a vector").
Proof.
  intros Hshape. unfold ARModel_init. simpl. by rewrite decide_False.
Qed.

(** C10.  The integer-order path of [ARModel.__init__] is taken for a
    plain [int] only.  Any other [rho] that is accepted gives the
    estimator the elements of [np.asarray(rho)] as coefficients; so
    [ARModel(X, True)] is the order-1 model with coefficient sequence
    [[1]], where [ARModel(X, 1)] is the order-1 model with the
    zero-initialised [[0]]. *)
Theorem C10_ARModel_init_bool_is_coefficient `{Numerics} `{!Linalg} :
  (∀ (D : matrix) (rho : pyobj) (est : estimator),
     (∀ k, rho ≠ PyInt k) → ARModel_init D rho = Ok est →
     ∃ order : nat, kind est = AR (Z.of_nat order) (nd_data (asarray rho)))
  ∧ (∀ (D : matrix),
       ∃ est, ARModel_init D (PyBool true) = Ok est ∧ kind est = AR 1 [one])
  ∧ (∀ (D : matrix),
       ∃ est, ARModel_init D (PyInt 1) = Ok est ∧ kind est = AR 1 [zero]).
Proof.
  split; [|split].
  - intros D rho est Hint Hinit. eexists.
    by apply (ARModel_init_coefficients D rho est).
  - intros D.
    destruct (ARModel_init_scalar D (PyBool true) one) as (est & Hest & Hi);
      [done | done |].
    exists est. split; [done | apply Hi].
  - intros D. destruct (ARModel_init_int D 1) as (est & Hest & Hi); [lia|].
    exists est. split; [done | apply Hi].
Qed.

(** ** Degrees of freedom *)

(** C5.  Every estimator made by [OLSModel] or [ARModel] from a design
    has [df_resid = df_total - df_model], with [df_total] the number of
    observations (rows of the design) and [df_model] the numeric rank of
    the unwhitened design at tolerance [sum(|design|) * eps]; the OLS
    constructor always makes one.  Every compact result holds
    [df_resid = df_total - df_model] as well, with [df_total] the number
    of observations of the response and [df_model] that of the
    estimator. *)
Theorem C5_degrees_of_freedom `{Numerics} `{!Linalg} :
  (∀ (D : matrix) (est : estimator),
     built_from D est →
     df_resid est = (df_total est - df_model est)%Z
     ∧ df_total est = Z.of_nat (shape0 D)
     ∧ df_model est = matrix_rank D (fmul (abs_sum D) feps))
  ∧ (∀ (D : matrix), ∃ est, OLSModel_init D = Ok est)
  ∧ (∀ (V : Type) `(!Item V) (results : RegressionResults.t V),
       let self := SimpleRegressionResults.init results in
       let df_total := Z.of_nat (shape0 (RegressionResults.Y results)) in
       let df_model := df_model (RegressionResults.model results) in
       self !! "df_total" = Some (SimpleRegressionResults.VInt df_total)
       ∧ self !! "df_model" = Some (SimpleRegressionResults.VInt df_model)
       ∧ self !! "df_resid"
         = Some (SimpleRegressionResults.VInt (df_total - df_model))).
Proof.
  split; [|split].
  - intros D est Hb.
    apply built_from_initialize in Hb as (k & _ & Hi).
    unfold initialized in Hi. tauto.
  - intros D. destruct (OLSModel_initialize_Ok OLS D I) as (est & Hest & _).
    by exists est.
  - intros V IV results. unfold SimpleRegressionResults.init. simpl.
    by simplify_map_eq.
Qed.

(** ** Compact results *)

(** C9.  [logL] of a compact result raises [ValueError], whatever the
    result and the response: it returns no value. *)
Theorem C9_simple_logL_raises `{Numerics} {V : Type} `{!Item V}
    (self : SimpleRegressionResults.t) (Y : array V) :
  SimpleRegressionResults.logL self Y
  = Raise (ValueError "can not use this method for simple results")
  ∧ ∀ v : V, SimpleRegressionResults.logL self Y ≠ Ok v.
Proof. split; [reflexivity | discriminate]. Qed.

(** C3, what the code does.  [predicted] of a compact result made from
    any full result reads [self.model], which
    [SimpleRegressionResults.__init__] never assigned: the call raises
    [AttributeError] and no prediction is returned, while the full
    result's own [predicted] is [np.dot(wdesign, theta)]. *)
Theorem C3_simple_predicted_raises `{Numerics} {V : Type} `{!Item V}
    (results : RegressionResults.t V) :
  SimpleRegressionResults.predicted (SimpleRegressionResults.init results)
  = Raise (AttributeError "model")
  ∧ RegressionResults.predicted results
    = dot (wdesign (RegressionResults.model results))
          (RegressionResults.theta results).
Proof.
  split; [|reflexivity].
  unfold SimpleRegressionResults.predicted, SimpleRegressionResults.getattr,
    SimpleRegressionResults.init.
  by simplify_map_eq.
Qed.

(** ** Fitting *)

Section FitFacts.
Context `{Numerics} `{!Linalg} {V : Type} `{!Item V}.

Lemma dot_Ok (M : matrix) (A : array V) :
  ishp M = shape0 A →
  dot M A = Ok (mk_array ((fun row => lincomb row A) <$> items M) (ishp A)).
Proof. intros Hs. unfold dot. by rewrite decide_True. Qed.

(** On two arrays of one shape, [A - B] is the itemwise difference:
    nothing is broadcast. *)
Lemma subtract_same_shape (A B : array V) :
  shape0 A = shape0 B → ishp A = ishp B →
  subtract A B
  = Ok (mk_array (zip_with (item_zip fsub) (items A) (items B)) (ishp A)).
Proof.
  intros Hn Hs. unfold subtract, broadcast2.
  rewrite Hn, bdim_diag, Hs, tail_broadcast_diag.
  by rewrite zip_bcast_same_length.
Qed.

(** [fit] reads the pseudoinverse stored on the estimator, whatever it
    holds: it computes none. *)
Lemma OLSModel_fit_uses_calc_beta (self : estimator) (Y : array V)
    (results : RegressionResults.t V) :
  OLSModel_fit self Y = Ok results →
  whiten (kind self) Y = Ok (RegressionResults.wY results)
  ∧ dot (calc_beta self) (RegressionResults.wY results)
    = Ok (RegressionResults.theta results).
Proof.
  unfold OLSModel_fit. intros Hfit.
  apply bind_Ok_inv in Hfit as (wY & HwY & Hfit).
  apply bind_Ok_inv in Hfit as (beta & Hbeta & Hfit).
  apply bind_Ok_inv in Hfit as (p & Hp & Hfit).
  apply bind_Ok_inv in Hfit as (wresid & Hwresid & Hfit).
  by simplify_eq.
Qed.

(** C1.  For an estimator made from a design [D] of [n] observations and
    [k] regressor columns and a response [Y] of [n] observations, where
    the pseudoinverse of the whitened design has the shape [(k, n)] of a
    pseudoinverse, [fit(Y)] returns a result whose coefficients are
    [pinv(whiten(D)) . whiten(Y)], whose whitened residuals are
    [whiten(Y) - whiten(D) . beta] item by item, and whose dispersion is
    the sum of the squared whitened residuals per column divided by
    [n - k].  The pseudoinverse is the one stored on the estimator when
    it was made. *)
Theorem C1_OLSModel_fit (D : matrix) (est : estimator) (Y : array V) :
  built_from D est →
  shape0 Y = shape0 D →
  shape0 (pinv (wdesign est)) = ishp D →
  ishp (pinv (wdesign est)) = shape0 D →
  ∃ (wD : matrix) (wY beta p wresid : array V),
    whiten (kind est) D = Ok wD
    ∧ whiten (kind est) Y = Ok wY
    ∧ wdesign est = wD
    ∧ calc_beta est = pinv wD
    ∧ dot (pinv wD) wY = Ok beta
    ∧ dot wD beta = Ok p
    ∧ subtract wY p = Ok wresid
    ∧ items wresid = zip_with (item_zip fsub) (items wY) (items p)
    ∧ OLSModel_fit est Y
      = Ok (RegressionResults.init beta Y est wY wresid
              (normalized_cov_beta est)
              (item_div (sum0 (square wresid))
                 (of_int (Z.of_nat (shape0 D) - Z.of_nat (ishp D))))
              None).
Proof.
  intros Hb HnY Hpn Hps.
  apply built_from_initialize in Hb
    as (k & Hk & Hkind & _ & HwD & Hcalc & _).
  destruct (whiten_shape k D Hk) as (wD & HwD' & HnD & HsD).
  rewrite HwD in HwD'. injection HwD' as HwD'.
  destruct (whiten_shape k Y Hk) as (wY & HwY & HnwY & HswY).
  assert (dot (pinv wD) wY
          = Ok (mk_array ((fun row => lincomb row wY) <$> items (pinv wD))
                         (ishp wY))) as Hbeta.
  { apply dot_Ok. rewrite <- HwD'. congruence. }
  set (beta := mk_array ((fun row => lincomb row wY) <$> items (pinv wD))
                        (ishp wY)) in *.
  assert (dot wD beta
          = Ok (mk_array ((fun row => lincomb row beta) <$> items wD)
                         (ishp beta))) as Hp.
  { apply dot_Ok. unfold beta, shape0. simpl. rewrite length_fmap.
    rewrite <- HwD' in *. unfold shape0 in Hpn. congruence. }
  set (p := mk_array ((fun row => lincomb row beta) <$> items wD)
                     (ishp beta)) in *.
  assert (subtract wY p
          = Ok (mk_array (zip_with (item_zip fsub) (items wY) (items p))
                         (ishp wY))) as Hwresid.
  { apply subtract_same_shape; [|done].
    unfold p, shape0 in *. simpl. rewrite length_fmap. congruence. }
  exists wD, wY, beta, p. eexists.
  rewrite Hkind. repeat split; try done; try congruence.
  unfold OLSModel_fit.
  rewrite Hkind, HwY, bind_Ok, Hcalc, HwD', Hbeta, bind_Ok, Hp, bind_Ok.
  rewrite Hwresid, bind_Ok. by rewrite HnD, HsD.
Qed.
End FitFacts.

(** ** Log-likelihood *)

Section LogLFacts.
Context `{Numerics} `{!Linalg} {V : Type} `{!Item V}.

(** The value of the log-likelihood in the words of its specification:
    [-n/2 * ln(2 * pi * sigma^2) - SSE / (2 * sigma^2)], per column. *)
Definition loglf (n : Z) (SSE sigmasq : V) : V :=
  item_zip fsub
    (item_map (fmul (fdiv (of_int (- n)) (of_int 2)))
       (item_map fln (item_map (fmul (fmul (of_int 2) fpi)) sigmasq)))
    (item_zip fdiv SSE (item_map (fmul (of_int 2)) sigmasq)).

Lemma item_op_Ok (f : num → num → num) (u v : V) (t : tail_shape) :
  tail_broadcast (item_shape u) (item_shape v) = Some t →
  item_op f u v = Ok (item_zip f u v).
Proof. intros Ht. unfold item_op. by rewrite Ht. Qed.

(** From the residual sum of squares on, [logL] is [loglf] whenever
    [sigma^2] can be broadcast against the sum of squares. *)
Lemma logL_tail (n : Z) (SSE sigmasq : V) (t : tail_shape) :
  tail_broadcast (item_shape SSE) (item_shape sigmasq) = Some t →
  (b ← item_op fdiv SSE (item_map (fmul (of_int 2)) sigmasq);
   item_op fsub
     (item_map (fmul (fdiv (of_int (- n)) (of_int 2)))
        (item_map fln (item_map (fmul (fmul (of_int 2) fpi)) sigmasq))) b)
  = Ok (loglf n SSE sigmasq).
Proof.
  intros Ht.
  rewrite (item_op_Ok fdiv _ _ t) by (by rewrite item_shape_map).
  rewrite bind_Ok. unfold loglf.
  apply (item_op_Ok fsub _ _ t).
  rewrite !item_shape_map.
  rewrite (item_shape_zip fdiv _ _ t) by (by rewrite item_shape_map).
  by apply tail_broadcast_absorb in Ht.
Qed.

(** C4, as amended.  [logL(beta, Y, nuisance)] whitens [Y], forms
    [r = whiten(Y) - wdesign . beta] and [SSE = sum(r^2)] per column, and
    with [n = df_total] returns
    [-n/2 * ln(2 * pi * sigma^2) - SSE / (2 * sigma^2)] per column, where
    [sigma^2 = SSE / n] when no nuisance is given and [sigma^2] is the
    nuisance's ['sigma'] entry when a nuisance with that entry is given.
    A nuisance given without a ['sigma'] entry makes the call raise
    [KeyError]. *)
Theorem C4_OLSModel_logL (self : estimator) (beta Y wY p r : array V) :
  whiten (kind self) Y = Ok wY →
  dot (wdesign self) beta = Ok p →
  subtract wY p = Ok r →
  let n := df_total self in
  let SSE := sum0 (square r) in
  OLSModel_logL self beta Y None
  = Ok (loglf n SSE (item_div SSE (of_int n)))
  ∧ (∀ (d : gmap string V) (sigma : V) (t : tail_shape),
       d !! "sigma" = Some sigma →
       tail_broadcast (item_shape SSE) (item_shape sigma) = Some t →
       OLSModel_logL self beta Y (Some d) = Ok (loglf n SSE sigma))
  ∧ (∀ (d : gmap string V),
       d !! "sigma" = None →
       OLSModel_logL self beta Y (Some d) = Raise (KeyError "sigma")).
Proof.
  intros HwY Hp Hr n SSE.
  assert (∀ nuisance,
            OLSModel_logL self beta Y nuisance
            = (sigmasq ← match nuisance with
                         | None => Ok (item_div SSE (of_int n))
                         | Some d =>
                             match d !! "sigma" with
                             | Some sigma => Ok sigma
                             | None => Raise (KeyError "sigma")
                             end
                         end;
               b ← item_op fdiv SSE (item_map (fmul (of_int 2)) sigmasq);
               item_op fsub
                 (item_map (fmul (fdiv (of_int (- n)) (of_int 2)))
                    (item_map fln
                       (item_map (fmul (fmul (of_int 2) fpi)) sigmasq))) b))
    as Hhead.
  { intros nuisance. unfold OLSModel_logL.
    by rewrite HwY, bind_Ok, Hp, bind_Ok, Hr, bind_Ok. }
  split; [|split].
  - rewrite Hhead, bind_Ok. apply (logL_tail n SSE _ (item_shape SSE)).
    unfold item_div. by rewrite item_shape_map, tail_broadcast_diag.
  - intros d sigma t Hd Ht. rewrite Hhead, Hd, bind_Ok.
    by apply (logL_tail n SSE sigma t).
  - intros d Hd. by rewrite Hhead, Hd.
Qed.
End LogLFacts.

(** On a 1-D response the value is the scalar expression itself. *)
Lemma loglf_scalar `{Numerics} (n : Z) (SSE sigmasq : num) :
  loglf n SSE sigmasq
  = fsub (fmul (fdiv (of_int (- n)) (of_int 2))
               (fln (fmul (fmul (of_int 2) fpi) sigmasq)))
         (fdiv SSE (fmul (of_int 2) sigmasq)).
Proof. reflexivity. Qed.

(** ** Normalised residuals *)

Section NormResidFacts.
Context `{Numerics}.

(** [norm_resid] is the residual times the safe reciprocal of the root
    of the dispersion, the latter repeated along axis 0; no law of the
    arithmetic is involved. *)
Lemma norm_resid_formula {V : Type} `{!Item V}
    (self : RegressionResults.t V) (e : array V) (s : tail_shape) :
  RegressionResults.resid self = Ok e →
  tail_broadcast (ishp e) (item_shape (RegressionResults.dispersion self))
  = Some s →
  RegressionResults.norm_resid self
  = Ok (mk_array
          ((fun a =>
              item_zip fmul a
                (positive_reciprocal
                   (item_map fsqrt (RegressionResults.dispersion self))))
             <$> items e)
          s).
Proof.
  intros He Hs. unfold RegressionResults.norm_resid, broadcast_item.
  rewrite He, bind_Ok. unfold positive_reciprocal.
  by rewrite !item_shape_map, Hs.
Qed.

(** The safe reciprocal of the root of a dispersion that is not
    positive is zero. *)
Lemma positive_reciprocal_sqrt_nonpositive (d : num) :
  (∀ x, fltb zero x = false → fltb zero (fsqrt x) = false) →
  fltb zero d = false →
  positive_reciprocal (item_map fsqrt d) = zero.
Proof.
  intros Hsqrt Hd. unfold positive_reciprocal. simpl. by rewrite (Hsqrt d Hd).
Qed.

(** C8.  [norm_resid] of a full result is its residual multiplied
    elementwise by [positive_reciprocal(sqrt(dispersion))], with
    [positive_reciprocal(x)] being [1/x] where [x > 0] and [0] elsewhere.
    A dispersion that is zero or negative raises nothing: where the root
    of a number that is not positive is not positive and [x * 0 = 0], the
    normalised residuals are zero, for a scalar dispersion in every row
    and for a per-column dispersion in every such column. *)
Theorem C8_norm_resid_safe_reciprocal :
  (∀ x, fltb zero x = false → fltb zero (fsqrt x) = false) →
  (∀ x, fmul x zero = zero) →
  (∀ (V : Type) `(!Item V) (self : RegressionResults.t V) (e : array V)
     (s : tail_shape),
     RegressionResults.resid self = Ok e →
     tail_broadcast (ishp e) (item_shape (RegressionResults.dispersion self))
     = Some s →
     RegressionResults.norm_resid self
     = Ok (mk_array
             ((fun a =>
                 item_zip fmul a
                   (positive_reciprocal
                      (item_map fsqrt (RegressionResults.dispersion self))))
                <$> items e)
             s))
  ∧ (∀ x : num,
       positive_reciprocal x = if fltb zero x then fdiv one x else zero)
  ∧ (∀ (self : RegressionResults.t num) (e : array num),
       RegressionResults.resid self = Ok e →
       fltb zero (RegressionResults.dispersion self) = false →
       RegressionResults.norm_resid self
       = Ok (mk_array (replicate (shape0 e) zero) tt))
  ∧ (∀ (self : RegressionResults.t (list num)) (e : array (list num)),
       RegressionResults.resid self = Ok e →
       ishp e = length (RegressionResults.dispersion self) →
       ∃ ne, RegressionResults.norm_resid self = Ok ne
             ∧ ∀ (t j : nat) (row : list num) (x d : num),
                 items e !! t = Some row →
                 length row = ishp e →
                 row !! j = Some x →
                 RegressionResults.dispersion self !! j = Some d →
                 fltb zero d = false →
                 ∃ nrow, items ne !! t = Some nrow ∧ nrow !! j = Some zero).
Proof.
  intros Hsqrt Hmul. split; [|split; [|split]].
  - intros V IV self e s. apply norm_resid_formula.
  - reflexivity.
  - intros self e He Hd.
    rewrite (norm_resid_formula self e tt He eq_refl).
    rewrite (positive_reciprocal_sqrt_nonpositive _ Hsqrt Hd).
    do 2 f_equal. unfold shape0. simpl.
    induction (items e) as [|x xs IH]; csimpl; [done|].
    by rewrite Hmul, IH.
  - intros self e He Hw.
    assert (tail_broadcast (ishp e)
              (item_shape (RegressionResults.dispersion self))
            = Some (ishp e)) as Hs.
    { simpl. rewrite Hw. apply bdim_diag. }
    eexists. split; [by apply norm_resid_formula|].
    intros t j row x d Ht Hlen Hx Hdj Hd. simpl.
    rewrite list_lookup_fmap, Ht. simpl. eexists. split; [done|].
    rewrite zip_bcast_same_length.
    2:{ unfold positive_reciprocal. simpl. rewrite !length_fmap. congruence. }
    rewrite lookup_zip_with, Hx. simpl.
    unfold positive_reciprocal. simpl.
    rewrite !list_lookup_fmap, Hdj. simpl.
    by rewrite (Hsqrt d Hd), Hmul.
Qed.
End NormResidFacts.

(** * Worked examples on exact rationals *)

Section Examples.
Import Rat.

Example OLSModel_init_D0 : OLSModel_init D0 = Ok est0.
Proof. vm_compute. reflexivity. Qed.

Example OLSModel_fit_Y0 :
  OLSModel_fit est0 Y0
  = Ok (RegressionResults.init (vec [3; 4]%Q) Y0 est0 Y0 (vec [0; 0; 5]%Q)
          (mat 2 [[1; 0]; [0; 1]]%Q) 25%Q None).
Proof. vm_compute. reflexivity. Qed.

Example OLSModel_fit_Y1_dispersion :
  RegressionResults.dispersion <$> OLSModel_fit est0 Y1 = Ok [25; 36]%Q.
Proof. vm_compute. reflexivity. Qed.

Example ARModel_whiten_order2 :
  ARModel_whiten (V := Q) 2 [1 # 2; 1 # 4]%Q (vec [4; 8; 16; 32]%Q)
  = Ok (vec [4; 6; 11; 22]%Q).
Proof. vm_compute. reflexivity. Qed.

Example ARModel_whiten_short_input :
  ARModel_whiten (V := Q) 3 [1; 1; 1]%Q (vec [4; 8]%Q) = Ok (vec [4; 4]%Q).
Proof. vm_compute. reflexivity. Qed.

Example ARModel_init_negative_order :
  ARModel_init D0 (PyInt (-1))
  = Raise (ValueError "negative dimensions are not allowed").
Proof. vm_compute. reflexivity. Qed.

Example ARModel_init_column_vector :
  kind <$> ARModel_init D0 (PyArray (mk_ndarray [2; 1] [1 # 2; 1 # 4]%Q))
  = Ok (AR 2 [1 # 2; 1 # 4]%Q).
Proof. vm_compute. reflexivity. Qed.
End Examples.

(** * The statements at concrete inputs *)

Section Instances.
Import Rat.

(** [fit] on the design [D0] and the response [Y0]. *)
Lemma C1_OLSModel_fit_witness : ∃ results, OLSModel_fit est0 Y0 = Ok results.
Proof.
  destruct (C1_OLSModel_fit D0 est0 Y0) as (wD & wY & beta & p & wresid & Hfit).
  - left. vm_compute. reflexivity.
  - vm_compute. reflexivity.
  - vm_compute. reflexivity.
  - vm_compute. reflexivity.
  - eexists. apply Hfit.
Defined.

(** [logL] at [beta = [3, 4]]: without a nuisance, with the nuisance
    [{'sigma': 4}], and with the empty nuisance. *)
Lemma C4_OLSModel_logL_witness :
  OLSModel_logL est0 (vec [3; 4]%Q) Y0 None
  = Ok (loglf 3 25%Q (25 # 3)%Q)
  ∧ OLSModel_logL est0 (vec [3; 4]%Q) Y0 (Some {["sigma" := 4%Q]})
    = Ok (loglf 3 25%Q 4%Q)
  ∧ OLSModel_logL est0 (vec [3; 4]%Q) Y0 (Some ∅) = Raise (KeyError "sigma").
Proof.
  destruct (C4_OLSModel_logL est0 (vec [3; 4]%Q) Y0 Y0 (vec [3; 4; 0]%Q)
              (vec [0; 0; 5]%Q)) as (Hnone & Hsigma & Hmissing).
  - vm_compute. reflexivity.
  - vm_compute. reflexivity.
  - vm_compute. reflexivity.
  - split; [exact Hnone|]. split.
    + apply (Hsigma {["sigma" := 4%Q]} 4%Q tt); reflexivity.
    + apply Hmissing. reflexivity.
Defined.

(** C4 as first stated fails: with a nuisance that is given and has no
    ['sigma'] entry, [logL] does not fall back to [sigma^2 = SSE / n]; it
    raises [KeyError]. *)
Lemma C4_missing_sigma_raises :
  OLSModel_logL est0 (vec [3; 4]%Q) Y0 (Some ∅) = Raise (KeyError "sigma")
  ∧ OLSModel_logL est0 (vec [3; 4]%Q) Y0 (Some ∅)
    ≠ Ok (loglf 3 25%Q (item_div 25%Q (of_int 3)) : Q).
Proof. split; [vm_compute; reflexivity | vm_compute; discriminate]. Qed.

(** A coefficient array of shape (2, 2) is refused. *)
Lemma C7_ARModel_init_bad_shape_witness :
  ARModel_init D0 (PyArray (mk_ndarray [2; 2] [1; 0; 0; 1]%Q))
  = Raise (ValueError "AR parameters must be a scalar or a vector").
Proof.
  apply C7_ARModel_init_bad_shape.
  apply (bool_decide_unpack _). vm_compute. reflexivity.
Defined.

(** C7 as first stated fails: a 2-D coefficient array of shape (1, 2) is
    neither a scalar nor 1-D, and [ARModel.__init__] accepts it as the
    two coefficients of an order-2 model. *)
Lemma C7_row_vector_accepted :
  let rho := mk_ndarray [1; 2] [1 # 2; 1 # 4]%Q in
  (length (nd_shape rho) ∉ [0; 1])
  ∧ ∃ est, ARModel_init D0 (PyArray rho) = Ok est
           ∧ kind est = AR 2 [1 # 2; 1 # 4]%Q.
Proof.
  split.
  - apply (bool_decide_unpack _). vm_compute. reflexivity.
  - eexists. split; vm_compute; reflexivity.
Qed.

Lemma Rat_sqrt_nonpositive (x : Q) :
  fltb zero x = false → fltb zero (fsqrt x) = false.
Proof. destruct x as [[|n|n] d]; simpl; intros Hx; done. Qed.

Lemma Rat_mul_zero (x : Q) : fmul x zero = zero.
Proof.
  destruct x as [n d]. simpl. unfold Qmult. simpl.
  by rewrite Z.mul_0_r.
Qed.

(** A full result with dispersion zero: its normalised residuals are
    zero. *)
Lemma C8_norm_resid_safe_reciprocal_witness :
  RegressionResults.norm_resid
    (RegressionResults.init (vec [3; 4]%Q) Y0 est0 Y0 (vec [0; 0; 5]%Q)
       (mat 2 [[1; 0]; [0; 1]]%Q) 0%Q None)
  = Ok (vec [0; 0; 0]%Q).
Proof.
  destruct (C8_norm_resid_safe_reciprocal (H := numerics)
              Rat_sqrt_nonpositive Rat_mul_zero)
    as (_ & _ & Hzero & _).
  apply (Hzero _ (vec [0; 0; 5]%Q)).
  - vm_compute. reflexivity.
  - vm_compute. reflexivity.
Defined.
(** An AR(1) filter with coefficient 1/2 on a 1-D input. *)
Lemma C2_ARModel_whiten_recurrence_witness :
  ∃ W, ARModel_whiten (V := Q) 1 [1 # 2]%Q (vec [4; 8; 16]%Q) = Ok W
       ∧ items W !! 0 = Some 4%Q
       ∧ items W !! 2 = Some (fsub 16 (fmul (1 # 2) 8))%Q.
Proof.
  destruct (C2_ARModel_whiten_recurrence (H := numerics))
    as (_ & _ & _ & Hone).
  destruct (Hone (1 # 2)%Q (vec [4; 8; 16]%Q)) as (W & HW & H0 & Hrow).
  exists W. split; [exact HW|]. split; [exact H0|].
  apply (Hrow 1 16%Q 8%Q); reflexivity.
Defined.

(** The degrees of freedom of the estimator [OLSModel] makes from [D0]. *)
Lemma C5_degrees_of_freedom_witness :
  df_resid est0 = (df_total est0 - df_model est0)%Z
  ∧ df_total est0 = 3%Z.
Proof.
  destruct (C5_degrees_of_freedom (H := numerics)) as (Hest & _ & _).
  destruct (Hest D0 est0) as (Hresid & Htotal & _).
  - left. vm_compute. reflexivity.
  - split; [exact Hresid | exact Htotal].
Defined.

(** [ARModel(D0, 2)]: order 2 and two zero coefficients. *)
Lemma C6_ARModel_init_int_or_float_witness :
  ∃ est, ARModel_init D0 (PyInt 2) = Ok est ∧ kind est = AR 2 [0; 0]%Q.
Proof.
  destruct (C6_ARModel_init_int_or_float (H := numerics)) as (Hint & _ & _).
  apply (Hint D0 2%Z). vm_compute. discriminate.
Defined.

(** [ARModel(D0, False)]: the coefficient path, with the coefficient the
    boolean is in arithmetic. *)
Lemma C10_ARModel_init_bool_is_coefficient_witness :
  ∃ order : nat,
    kind <$> ARModel_init D0 (PyBool false) = Ok (AR (Z.of_nat order) [0%Q]).
Proof.
  destruct (C10_ARModel_init_bool_is_coefficient (H := numerics))
    as (Hpath & _ & _).
  destruct (ARModel_init D0 (PyBool false)) as [est|e] eqn:Hinit;
    [|vm_compute in Hinit; discriminate Hinit].
  destruct (Hpath D0 (PyBool false) est) as [order Hkind];
    [discriminate | exact Hinit |].
  exists order. simpl. by rewrite Hkind.
Defined.
End Instances.

(** * Further properties of the module *)

(** ** The AR filter, row by row *)

Section WhitenRows.
Context `{Numerics} {V : Type} `{!Item V}.

(** The terms [ARModel.whiten] subtracts from row [t]:
    [rho[0] * X[t-1]], [rho[1] * X[t-2]], ..., as far as both the
    coefficients and the rows before [t] reach. *)
Definition lagged_terms (rho : list num) (X : list V) (t : nat) : list V :=
  zip_with (fun r x => item_map (fmul r) x) (take t rho) (reverse (take t X)).

(** What the lags do to the one row [t]. *)
Definition row_step (X : list V) (t : nat) (a : V) (lag : nat * num) : V :=
  if decide (lag.1 ≤ t)
  then from_option (fun x => item_zip fsub a (item_map (fmul lag.2) x))
                   a (X !! (t - lag.1))
  else a.

Lemma lookup_foldl_lag_step (X : list V) (lags : list (nat * num)) :
  ∀ (acc : list V) (t : nat),
    foldl (fun acc '(i, r) => lag_step i r X acc) acc lags !! t
    = (fun a => foldl (row_step X t) a lags) <$> acc !! t.
Proof.
  induction lags as [|[i r] lags IH]; intros acc t; simpl.
  - by destruct (acc !! t).
  - rewrite IH. unfold lag_step at 1. rewrite list_lookup_imap.
    by destruct (acc !! t).
Qed.

Lemma reverse_take_S (X : list V) (m : nat) (x : V) :
  X !! m = Some x → reverse (take (S m) X) = x :: reverse (take m X).
Proof.
  intros Hx. rewrite (take_S_r X m x Hx). by rewrite reverse_snoc.
Qed.

Lemma foldl_row_step_terms (X : list V) (t : nat) :
  t < length X →
  ∀ (k : list num) (j : nat) (a : V),
    foldl (row_step X t) a (zip (seq (S j) (length k)) k)
    = foldl (item_zip fsub) a (lagged_terms k X (t - j)).
Proof.
  intros Ht. induction k as [|r k IH]; intros j a; simpl.
  - unfold lagged_terms. by rewrite take_nil.
  - rewrite IH. unfold row_step. simpl.
    destruct (decide (S j ≤ t)) as [Hj|Hj].
    + destruct (lookup_lt_is_Some_2 X (t - S j)) as [x Hx]; [lia|].
      rewrite Hx. simpl. unfold lagged_terms.
      replace (t - j) with (S (t - S j)) by lia.
      by rewrite (reverse_take_S X (t - S j) x Hx).
    + unfold lagged_terms.
      replace (t - S j) with 0 by lia. replace (t - j) with 0 by lia.
      done.
Qed.

Lemma whiten_recurrence_row (rho : list num) (X : array V) (t : nat) (x : V) :
  items X !! t = Some x →
  items (whiten_recurrence rho X) !! t
  = Some (foldl (item_zip fsub) x (lagged_terms rho (items X) t)).
Proof.
  intros Hx. unfold whiten_recurrence. simpl.
  rewrite lookup_foldl_lag_step, Hx. simpl. f_equal.
  rewrite (foldl_row_step_terms (items X) t (lookup_lt_Some _ _ _ Hx) rho 0).
  by rewrite Nat.sub_0_r.
Qed.

(** X1.  Row [t] of [ARModel.whiten(X)] is
    [X[t] - rho[0] * X[t-1] - rho[1] * X[t-2] - ...], the subtractions
    done from left to right, one for each of the first [min(order, t)]
    coefficients; the rows after [t] and the rows more than [order]
    before it play no part.  In particular row [0] is [X[0]], and the
    result has as many rows as [X], also when [X] is shorter than the
    order. *)
Theorem X1_ARModel_whiten_row (rho : list num) (X : array V) :
  ∃ W, ARModel_whiten (Z.of_nat (length rho)) rho X = Ok W
       ∧ shape0 W = shape0 X
       ∧ items W !! 0 = items X !! 0
       ∧ ∀ (t : nat) (x : V),
           items X !! t = Some x →
           items W !! t
           = Some (foldl (item_zip fsub) x (lagged_terms rho (items X) t)).
Proof.
  exists (whiten_recurrence rho X).
  split; [apply ARModel_whiten_recurrence|].
  split; [apply shape_whiten_recurrence|].
  split; [|apply whiten_recurrence_row].
  destruct (items X !! 0) as [x|] eqn:Hx.
  - rewrite (whiten_recurrence_row rho X 0 x Hx).
    unfold lagged_terms. by rewrite take_0.
  - apply lookup_ge_None_2. apply lookup_ge_None_1 in Hx.
    pose proof (shape_whiten_recurrence rho X) as [Hn _].
    unfold shape0 in Hn. lia.
Qed.
End WhitenRows.

(** ** An AR model of integer order *)

Section ZeroCoefficients.
Context `{Numerics} `{!Linalg}.

(** Subtracting zero times one item of [X] from another leaves the
    latter as it is.  For finite floating-point data this is
    [a - 0. * x = a]. *)
Definition zero_lag_neutral {V : Type} `{!Item V} (X : array V) : Prop :=
  ∀ a x : V, a ∈ items X → x ∈ items X →
             item_zip fsub a (item_map (fmul zero) x) = a.

Lemma foldl_neutral {A B : Type} (f : A → B → A) (a : A) (ys : list B) :
  (∀ y, y ∈ ys → f a y = a) → foldl f a ys = a.
Proof.
  induction ys as [|y ys IH]; intros Hys; simpl; [done|].
  rewrite (Hys y) by left. apply IH. intros y' Hy'. apply Hys. by right.
Qed.

Lemma ARModel_whiten_zeros {V : Type} `{!Item V} (p : nat) (X : array V) :
  zero_lag_neutral X →
  ARModel_whiten (Z.of_nat p) (replicate p zero) X = Ok X.
Proof.
  intros Hzero.
  pose proof (ARModel_whiten_recurrence (replicate p zero) X) as HW.
  rewrite length_replicate in HW. rewrite HW. f_equal.
  destruct (shape_whiten_recurrence (replicate p zero) X) as [Hn Hs].
  pose proof (whiten_recurrence_row (replicate p zero) X) as Hrow.
  destruct (whiten_recurrence (replicate p zero) X) as [ws sh].
  destruct X as [xs sh']. simpl in *. subst sh'. f_equal.
  apply list_eq. intros t.
  destruct (xs !! t) as [x|] eqn:Hx.
  - rewrite (Hrow t x Hx). f_equal. apply foldl_neutral.
    intros y Hy. unfold lagged_terms in Hy.
    apply elem_of_zip_with in Hy as (r & x' & -> & Hr & Hx').
    apply subseteq_take, elem_of_replicate in Hr as [-> _].
    apply elem_of_reverse, subseteq_take in Hx'.
    apply Hzero; [by eapply list_elem_of_lookup_2 | done].
  - apply lookup_ge_None_2. apply lookup_ge_None_1 in Hx.
    unfold shape0 in Hn. simpl in Hn. lia.
Qed.

(** What a fit computes, apart from the back-reference to its estimator. *)
Definition fit_values {V : Type} `{!Item V} (results : RegressionResults.t V)
  : array V * array V * array V * matrix * V :=
  (RegressionResults.theta results, RegressionResults.wY results,
   RegressionResults.wresid results, RegressionResults.cov results,
   RegressionResults.dispersion results).

(** X2.  [ARModel(D, k)] for an integer [k >= 0] is an OLS model in all
    but name: on data for which [a - 0. * x = a], its zero coefficients
    make [whiten] the identity, so its whitened design is [D], all its
    other attributes are those of [OLSModel(D)], and [fit(Y)] computes
    the same coefficients, residuals, covariance and dispersion. *)
Theorem X2_ARModel_int_order_fits_like_OLS {V : Type} `{!Item V}
    (D : matrix) (k : Z) (Y : array V) :
  (0 ≤ k)%Z → zero_lag_neutral D → zero_lag_neutral Y →
  ∃ est ols,
    ARModel_init D (PyInt k) = Ok est
    ∧ OLSModel_init D = Ok ols
    ∧ est = mk_estimator (AR k (replicate (Z.to_nat k) zero))
              (design ols) (wdesign ols) (calc_beta ols)
              (normalized_cov_beta ols)
              (df_total ols) (df_model ols) (df_resid ols)
    ∧ wdesign est = D
    ∧ whiten (kind est) Y = Ok Y
    ∧ fit_values <$> OLSModel_fit est Y = fit_values <$> OLSModel_fit ols Y.
Proof.
  intros Hk HD HY.
  assert (∀ {U : Type} `{!Item U} (X : array U),
            zero_lag_neutral X →
            whiten (AR k (replicate (Z.to_nat k) zero)) X = Ok X) as Hid.
  { intros U IU X HX. simpl.
    rewrite <- (Z2Nat.id k) at 1 by done. by apply ARModel_whiten_zeros. }
  destruct (ARModel_init_int D k Hk) as (est & Hest & Hi).
  destruct (OLSModel_initialize_Ok OLS D I) as (ols & Hols & Ho).
  exists est, ols.
  destruct Hi as (Hkind & Hdes & HwD & Hcb & Hcov & Hdt & Hdm & Hdr).
  destruct Ho as (Hkind' & Hdes' & HwD' & Hcb' & Hcov' & Hdt' & Hdm' & Hdr').
  rewrite (Hid _ _ D HD) in HwD. injection HwD as HwD.
  simpl in HwD'. injection HwD' as HwD'.
  assert (est = mk_estimator (AR k (replicate (Z.to_nat k) zero))
                  (design ols) (wdesign ols) (calc_beta ols)
                  (normalized_cov_beta ols)
                  (df_total ols) (df_model ols) (df_resid ols)) as Heq.
  { destruct est, ols. simpl in *. subst.
    rewrite Hcov in Hcov'. by injection Hcov' as ->. }
  split; [done|]. split; [done|]. split; [done|]. split; [done|].
  rewrite Hkind. split; [by apply Hid|].
  unfold OLSModel_fit. rewrite Hkind, Hkind', (Hid _ _ Y HY). simpl.
  rewrite Heq. simpl.
  destruct (dot (calc_beta ols) Y) as [beta|e]; simpl; [|done].
  destruct (dot (wdesign ols) beta) as [p|e]; simpl; [|done].
  by destruct (subtract Y p) as [wresid|e].
Qed.
End ZeroCoefficients.

(** ** What a fit leaves behind *)

Section FitResults.
Context `{Numerics} `{!Linalg} {V : Type} `{!Item V}.

(** The steps of a [fit] that returned. *)
Lemma OLSModel_fit_inv (self : estimator) (Y : array V)
    (results : RegressionResults.t V) :
  OLSModel_fit self Y = Ok results →
  ∃ wY beta p wresid,
    whiten (kind self) Y = Ok wY
    ∧ dot (calc_beta self) wY = Ok beta
    ∧ dot (wdesign self) beta = Ok p
    ∧ subtract wY p = Ok wresid
    ∧ results
      = RegressionResults.init beta Y self wY wresid
          (normalized_cov_beta self)
          (item_div (sum0 (square wresid))
             (of_int (Z.of_nat (shape0 (wdesign self))
                      - Z.of_nat (ishp (wdesign self)))))
          None.
Proof.
  unfold OLSModel_fit. intros Hfit.
  apply bind_Ok_inv in Hfit as (wY & HwY & Hfit).
  apply bind_Ok_inv in Hfit as (beta & Hbeta & Hfit).
  apply bind_Ok_inv in Hfit as (p & Hp & Hfit).
  apply bind_Ok_inv in Hfit as (wresid & Hwresid & Hfit).
  exists wY, beta, p, wresid. by simplify_eq.
Qed.

Lemma dot_Raise (M : matrix) (A : array V) :
  ishp M ≠ shape0 A → dot M A = Raise (ValueError "shapes not aligned").
Proof. intros Hne. unfold dot. by rewrite decide_False. Qed.

(** A difference that is defined stays defined when the left operand is
    replaced by an array of the same shape. *)
Lemma subtract_Ok_same_shape (A A' B C : array V) :
  shape0 A' = shape0 A → ishp A' = ishp A →
  subtract A B = Ok C →
  ∃ C', subtract A' B = Ok C' ∧ shape0 C' = shape0 C ∧ ishp C' = ishp C.
Proof.
  unfold subtract, broadcast2. intros Hn Hs HC. rewrite Hn, Hs.
  destruct (bdim (shape0 A) (shape0 B)) as [n|] eqn:Hb; [|done].
  destruct (tail_broadcast (ishp A) (ishp B)) as [s|]; [|done].
  injection HC as <-. eexists. split; [done|]. split; [|done].
  unfold shape0 in *. simpl.
  rewrite (length_zip_bcast _ _ _ n) by (by rewrite Hn).
  by rewrite (length_zip_bcast _ _ _ n).
Qed.

(** X3.  On every result [fit] returns, [predicted] and [resid] are
    defined, with no shape error left to happen: [predicted] is
    [wdesign . theta], the whitened residual is [wY - predicted], and
    [resid] is [Y - predicted], of the shape of the whitened residual.
    When the estimator is an OLS model, [resid] is the whitened residual
    itself. *)
Theorem X3_fit_predicted_resid (self : estimator) (Y : array V)
    (results : RegressionResults.t V) :
  OLSModel_fit self Y = Ok results →
  ∃ p e,
    RegressionResults.predicted results = Ok p
    ∧ dot (wdesign self) (RegressionResults.theta results) = Ok p
    ∧ subtract (RegressionResults.wY results) p
      = Ok (RegressionResults.wresid results)
    ∧ RegressionResults.resid results = Ok e
    ∧ subtract Y p = Ok e
    ∧ shape0 e = shape0 (RegressionResults.wresid results)
    ∧ ishp e = ishp (RegressionResults.wresid results)
    ∧ (kind self = OLS → e = RegressionResults.wresid results).
Proof.
  intros Hfit.
  apply OLSModel_fit_inv in Hfit
    as (wY & beta & p & wresid & HwY & Hbeta & Hp & Hwresid & ->).
  destruct (whiten_shape (kind self) Y (whiten_Ok_kind_ok _ _ _ HwY))
    as (wY' & HwY' & Hn & Hs).
  rewrite HwY in HwY'. injection HwY' as <-.
  destruct (subtract_Ok_same_shape wY Y p wresid) as (e & He & Hne & Hse);
    [done | done | done |].
  exists p, e.
  unfold RegressionResults.resid, RegressionResults.predicted,
    RegressionResults.wdesign.
  simpl. rewrite Hp. simpl.
  repeat split; try done.
  intros Hols. rewrite Hols in HwY. injection HwY as <-. congruence.
Qed.

(** X4.  The dispersion of a fit is its error sum of squares divided by
    (rows - columns) of the whitened design, and the log-likelihood at
    the fitted coefficients, with no nuisance, is defined whenever the
    fit is: it is the profile value computed from the fit's own [SSE]
    with [sigma^2 = SSE / df_total]. *)
Theorem X4_fit_dispersion_and_logL (self : estimator) (Y : array V)
    (results : RegressionResults.t V) :
  OLSModel_fit self Y = Ok results →
  RegressionResults.dispersion results
  = item_div (RegressionResults.SSE results)
      (of_int (Z.of_nat (shape0 (wdesign self))
               - Z.of_nat (ishp (wdesign self))))
  ∧ OLSModel_logL self (RegressionResults.theta results) Y None
    = Ok (loglf (df_total self) (RegressionResults.SSE results)
            (item_div (RegressionResults.SSE results)
               (of_int (df_total self)))).
Proof.
  intros Hfit.
  apply OLSModel_fit_inv in Hfit
    as (wY & beta & p & wresid & HwY & Hbeta & Hp & Hwresid & ->).
  split; [done|].
  unfold OLSModel_logL, RegressionResults.SSE. simpl.
  rewrite HwY, bind_Ok, Hp, bind_Ok, Hwresid, !bind_Ok.
  apply (logL_tail _ _ _ (item_shape (sum0 (square wresid)))).
  unfold item_div. by rewrite item_shape_map, tail_broadcast_diag.
Qed.

(** X5.  A response whose number of observations is not the number of
    columns of the stored pseudoinverse is refused by [fit] with
    [ValueError]: nothing is broadcast or truncated.  Likewise [logL]
    refuses coefficients whose number is not the number of columns of
    the whitened design, whatever the nuisance argument, so also before
    a missing ['sigma'] could be noticed. *)
Theorem X5_fit_logL_shapes_not_aligned (D : matrix) (est : estimator) :
  built_from D est →
  (∀ Y : array V,
     ishp (calc_beta est) ≠ shape0 Y →
     OLSModel_fit est Y = Raise (ValueError "shapes not aligned"))
  ∧ (∀ (beta Y : array V) (nuisance : option (gmap string V)),
       ishp (wdesign est) ≠ shape0 beta →
       OLSModel_logL est beta Y nuisance
       = Raise (ValueError "shapes not aligned")).
Proof.
  intros Hb. apply built_from_initialize in Hb as (k & Hk & Hkind & _).
  split.
  - intros Y Hne.
    destruct (whiten_shape k Y Hk) as (wY & HwY & Hn & _).
    unfold OLSModel_fit. rewrite Hkind, HwY, bind_Ok.
    by rewrite dot_Raise by congruence.
  - intros beta Y nuisance Hne.
    destruct (whiten_shape k Y Hk) as (wY & HwY & _).
    unfold OLSModel_logL. rewrite Hkind, HwY, bind_Ok.
    by rewrite dot_Raise.
Qed.
End FitResults.

(** ** What the constructors accept *)

Section ConstructorShapes.
Context `{Numerics} `{!Linalg}.

(** An N-D array holds as many elements as its shape says. *)
Definition nd_wf (a : ndarray) : Prop :=
  length (nd_data a) = foldr Nat.mul 1 (nd_shape a).

Lemma product_squeeze (shape : list nat) :
  foldr Nat.mul 1 (filter (fun d => d ≠ 1) shape) = foldr Nat.mul 1 shape.
Proof.
  induction shape as [|d shape IH]; [done|].
  rewrite filter_cons. case_decide as Hd; simpl; rewrite IH; [done|].
  destruct (decide (d = 1)) as [->|]; [lia | done].
Qed.

Lemma squeeze_squeeze (a : ndarray) : squeeze (squeeze a) = squeeze a.
Proof.
  unfold squeeze. simpl. f_equal.
  rewrite list_filter_filter. apply list_filter_iff. tauto.
Qed.

Lemma ARModel_init_array (D : matrix) (a : ndarray) :
  nd_wf a → length (nd_shape (squeeze a)) ∈ [0; 1] →
  ∃ est, ARModel_init D (PyArray a) = Ok est
         ∧ initialized (AR (Z.of_nat (length (nd_data a))) (nd_data a)) D est.
Proof.
  intros Hwf Hdim.
  assert (foldr Nat.mul 1 (nd_shape (squeeze a)) = length (nd_data a)) as Hp.
  { unfold squeeze. simpl. rewrite product_squeeze. by rewrite Hwf. }
  assert (ARModel_init D (PyArray a)
          = OLSModel_initialize
              (AR (Z.of_nat (length (nd_data a))) (nd_data a)) D) as ->.
  { unfold ARModel_init. simpl asarray. rewrite decide_True by done.
    destruct (nd_shape (squeeze a)) as [|n [|m sh]] eqn:Hsh.
    - rewrite decide_True by done. simpl in *. by rewrite <- Hp.
    - rewrite decide_False by done. rewrite Hsh. simpl in *.
      by rewrite <- Hp, Nat.mul_1_r.
    - simpl in Hdim. by repeat (apply elem_of_cons in Hdim as [?|Hdim]);
        try apply elem_of_nil in Hdim. }
  apply OLSModel_initialize_Ok. simpl. lia.
Qed.

(** X6.  What [ARModel.__init__] makes of [rho].  A negative integer is
    refused with [ValueError].  A well-formed array-like with at most
    one axis left after squeezing is accepted, its elements become the
    coefficients and their number the order.  Whatever [rho] was, on
    every estimator the constructor returns, [order] is the number of
    coefficients in [rho]. *)
Theorem X6_ARModel_init_order_is_number_of_coefficients :
  (∀ (D : matrix) (k : Z),
     (k < 0)%Z →
     ARModel_init D (PyInt k)
     = Raise (ValueError "negative dimensions are not allowed"))
  ∧ (∀ (D : matrix) (a : ndarray),
       nd_wf a → length (nd_shape (squeeze a)) ∈ [0; 1] →
       ∃ est, ARModel_init D (PyArray a) = Ok est
              ∧ kind est = AR (Z.of_nat (length (nd_data a))) (nd_data a))
  ∧ (∀ (D : matrix) (rho : pyobj) (est : estimator),
       (∀ a, rho = PyArray a → nd_wf a) →
       ARModel_init D rho = Ok est →
       ∃ (order : Z) (coefficients : list num),
         kind est = AR order coefficients
         ∧ order = Z.of_nat (length coefficients)).
Proof.
  split; [|split].
  - intros D k Hk. unfold ARModel_init, zeros. by rewrite decide_True.
  - intros D a Hwf Hdim.
    destruct (ARModel_init_array D a Hwf Hdim) as (est & Hest & Hkind & _).
    by exists est.
  - intros D rho est Hwf Hinit. destruct rho as [k|b|x|a].
    + destruct (decide (k < 0)%Z) as [Hneg|Hpos].
      { unfold ARModel_init, zeros in Hinit.
        by rewrite decide_True in Hinit. }
      destruct (ARModel_init_int D k) as (est' & Hest' & Hkind & _); [lia|].
      exists k, (replicate (Z.to_nat k) zero).
      rewrite length_replicate. split; [congruence | lia].
    + destruct (ARModel_init_scalar D (PyBool b) (of_bool b))
        as (est' & Hest' & Hkind & _); [done | done |].
      exists 1%Z, [of_bool b]. split; [congruence | done].
    + destruct (ARModel_init_scalar D (PyFloat x) x)
        as (est' & Hest' & Hkind & _); [done | done |].
      exists 1%Z, [x]. split; [congruence | done].
    + destruct (decide (length (nd_shape (squeeze a)) ∈ [0; 1])) as [Hdim|Hdim].
      2:{ unfold ARModel_init in Hinit. simpl asarray in Hinit.
          by rewrite decide_False in Hinit. }
      destruct (ARModel_init_array D a (Hwf a eq_refl) Hdim)
        as (est' & Hest' & Hkind & _).
      exists (Z.of_nat (length (nd_data a))), (nd_data a).
      split; [congruence | done].
Qed.

(** X7.  [ARModel.__init__] looks at [rho] through [np.squeeze] only:
    arrays that differ in axes of length one, such as a row vector, a
    column vector and the flat vector of the same coefficients, make the
    same estimator, and a scalar float makes the estimator of the
    one-element array. *)
Theorem X7_ARModel_init_squeeze_invariant :
  (∀ (D : matrix) (a : ndarray),
     ARModel_init D (PyArray a) = ARModel_init D (PyArray (squeeze a)))
  ∧ (∀ (D : matrix) (a b : ndarray),
       squeeze a = squeeze b →
       ARModel_init D (PyArray a) = ARModel_init D (PyArray b))
  ∧ (∀ (D : matrix) (c : num),
       ARModel_init D (PyFloat c)
       = ARModel_init D (PyArray (mk_ndarray [1] [c]))).
Proof.
  assert (∀ (D : matrix) (a b : ndarray),
            squeeze a = squeeze b →
            ARModel_init D (PyArray a) = ARModel_init D (PyArray b)) as Hsq.
  { intros D a b Hab. unfold ARModel_init. simpl asarray. by rewrite Hab. }
  split; [|split; [done|]].
  - intros D a. apply Hsq. by rewrite squeeze_squeeze.
  - intros D c. reflexivity.
Qed.
End ConstructorShapes.

(** ** Shapes an estimator keeps *)

(** X8.  On every estimator either constructor returns for a design
    [D]: [design] is [D]; the whitened design has the shape of [D]; the
    stored pseudoinverse is that of the whitened design; the normalised
    covariance is square, its side the number of rows of the
    pseudoinverse; and [self.whiten] returns, for any array, an array of
    the same shape without raising - for an OLS model the array
    itself. *)
Theorem X8_estimator_shapes `{Numerics} `{!Linalg}
    (D : matrix) (est : estimator) :
  built_from D est →
  design est = D
  ∧ shape0 (wdesign est) = shape0 D
  ∧ ishp (wdesign est) = ishp D
  ∧ calc_beta est = pinv (wdesign est)
  ∧ shape0 (normalized_cov_beta est) = shape0 (calc_beta est)
  ∧ ishp (normalized_cov_beta est) = shape0 (calc_beta est)
  ∧ (∀ (V : Type) `(!Item V) (X : array V),
       ∃ W, whiten (kind est) X = Ok W
            ∧ shape0 W = shape0 X ∧ ishp W = ishp X
            ∧ (kind est = OLS → W = X)).
Proof.
  intros Hb. apply built_from_initialize in Hb
    as (k & Hk & Hkind & Hdes & HwD & Hcb & Hcov & _).
  destruct (whiten_shape k D Hk) as (wD & HwD' & Hn & Hs).
  rewrite HwD in HwD'. injection HwD' as <-.
  rewrite dot_transpose_Ok in Hcov. injection Hcov as <-.
  repeat split; try done.
  - unfold shape0. simpl. by rewrite length_fmap.
  - intros V IV X. rewrite Hkind.
    destruct (whiten_shape k X Hk) as (W & HW & HnW & HsW).
    exists W. repeat split; try done.
    intros ->. simpl in HW. by injection HW.
Qed.

(** ** What a compact result keeps *)


(** ** The further properties at concrete inputs *)

Section FurtherInstances.
Import Rat.

(** Row 2 of an AR(2) filter on a 1-D input. *)
Lemma X1_ARModel_whiten_row_witness :
  ∃ W, ARModel_whiten (V := Q) 2 [1 # 2; 1 # 4]%Q (vec [4; 8; 16; 32]%Q) = Ok W
       ∧ items W !! 2 = Some 11%Q.
Proof.
  destruct (X1_ARModel_whiten_row (H := numerics) (V := Q) [1 # 2; 1 # 4]%Q
              (vec [4; 8; 16; 32]%Q)) as (W & HW & _ & _ & Hrow).
  exists W. split; [exact HW|].
  rewrite (Hrow 2 16%Q); reflexivity.
Defined.

(** The data of the examples are integers: zero times any of them,
    subtracted from any other, changes nothing. *)
Lemma zero_lag_neutral_Y0 : zero_lag_neutral Y0.
Proof.
  intros a x Ha Hx. simpl in Ha, Hx.
  repeat (apply elem_of_cons in Ha as [->|Ha]);
    try (by apply elem_of_nil in Ha);
    repeat (apply elem_of_cons in Hx as [->|Hx]);
    try (by apply elem_of_nil in Hx);
    vm_compute; reflexivity.
Qed.

Lemma zero_lag_neutral_D0 : zero_lag_neutral D0.
Proof.
  intros a x Ha Hx. simpl in Ha, Hx.
  repeat (apply elem_of_cons in Ha as [->|Ha]);
    try (by apply elem_of_nil in Ha);
    repeat (apply elem_of_cons in Hx as [->|Hx]);
    try (by apply elem_of_nil in Hx);
    vm_compute; reflexivity.
Qed.

(** [ARModel(D0, 2)] against [OLSModel(D0)] on the response [Y0]. *)
Lemma X2_ARModel_int_order_fits_like_OLS_witness :
  ∃ est, ARModel_init D0 (PyInt 2) = Ok est
         ∧ wdesign est = D0
         ∧ fit_values <$> OLSModel_fit est Y0
           = fit_values <$> OLSModel_fit est0 Y0.
Proof.
  destruct (X2_ARModel_int_order_fits_like_OLS D0 2 Y0)
    as (est & ols & Hest & Hols & _ & HwD & _ & Hfit).
  - vm_compute. discriminate.
  - exact zero_lag_neutral_D0.
  - exact zero_lag_neutral_Y0.
  - exists est. split; [exact Hest|]. split; [exact HwD|].
    rewrite OLSModel_init_D0 in Hols. injection Hols as <-. exact Hfit.
Defined.

(** The fit of [Y0] on [est0]. *)
Lemma X3_fit_predicted_resid_witness :
  ∃ e, RegressionResults.resid
         (RegressionResults.init (vec [3; 4]%Q) Y0 est0 Y0 (vec [0; 0; 5]%Q)
            (mat 2 [[1; 0]; [0; 1]]%Q) 25%Q None) = Ok e
       ∧ e = vec [0; 0; 5]%Q.
Proof.
  destruct (X3_fit_predicted_resid est0 Y0 _ OLSModel_fit_Y0)
    as (p & e & _ & _ & _ & He & _ & _ & _ & Hols).
  exists e. split; [exact He|]. apply Hols. reflexivity.
Defined.

Lemma X4_fit_dispersion_and_logL_witness :
  OLSModel_logL est0 (vec [3; 4]%Q) Y0 None
  = Ok (loglf 3 25%Q (item_div 25%Q (of_int 3))).
Proof.
  destruct (X4_fit_dispersion_and_logL est0 Y0 _ OLSModel_fit_Y0)
    as [_ HlogL].
  exact HlogL.
Defined.

(** A response of two observations for a design of three. *)
Lemma X5_fit_logL_shapes_not_aligned_witness :
  OLSModel_fit est0 (vec [3; 4]%Q) = Raise (ValueError "shapes not aligned")
  ∧ OLSModel_logL est0 (vec [3; 4; 5]%Q) Y0 (Some ∅)
    = Raise (ValueError "shapes not aligned").
Proof.
  destruct (X5_fit_logL_shapes_not_aligned (V := Q) D0 est0) as [Hfit HlogL].
  - left. exact OLSModel_init_D0.
  - split.
    + apply Hfit. vm_compute. discriminate.
    + apply HlogL. vm_compute. discriminate.
Defined.

(** A column vector of two coefficients. *)
Lemma X6_ARModel_init_order_is_number_of_coefficients_witness :
  ∃ est, ARModel_init D0 (PyArray (mk_ndarray [2; 1] [1 # 2; 1 # 4]%Q)) = Ok est
         ∧ kind est = AR 2 [1 # 2; 1 # 4]%Q.
Proof.
  destruct (X6_ARModel_init_order_is_number_of_coefficients (H := numerics))
    as (_ & Harray & _).
  apply (Harray D0 (@mk_ndarray numerics [2; 1] [1 # 2; 1 # 4]%Q)).
  - reflexivity.
  - apply (bool_decide_unpack _). vm_compute. reflexivity.
Defined.

(** A row vector and a column vector of the same coefficients. *)
Lemma X7_ARModel_init_squeeze_invariant_witness :
  ARModel_init D0 (PyArray (mk_ndarray [1; 2] [1 # 2; 1 # 4]%Q))
  = ARModel_init D0 (PyArray (mk_ndarray [2; 1] [1 # 2; 1 # 4]%Q)).
Proof.
  destruct (X7_ARModel_init_squeeze_invariant (H := numerics))
    as (_ & Hsq & _).
  apply Hsq. reflexivity.
Defined.

Lemma X8_estimator_shapes_witness :
  shape0 (wdesign est0) = 3 ∧ ishp (wdesign est0) = 2
  ∧ shape0 (normalized_cov_beta est0) = 2
  ∧ ishp (normalized_cov_beta est0) = 2.
Proof.
  destruct (X8_estimator_shapes D0 est0)
    as (_ & Hn & Hs & _ & Hcn & Hcs & _).
  - left. exact OLSModel_init_D0.
  - rewrite Hn, Hs, Hcn, Hcs. repeat split; reflexivity.
Defined.
End FurtherInstances.

(** ** A response of several columns, column by column *)

Section Columns.
Context `{Numerics} `{!Linalg}.

(** Column [j] of a 2-D array, as a 1-D array. *)
Definition col (j : nat) (A : matrix) : array num :=
  mk_array ((fun row => nth j row zero) <$> items A) tt.

(** Every row of a 2-D array has as many elements as the array has
    columns. *)
Definition well_formed (A : matrix) : Prop :=
  Forall (fun row => length row = ishp A) (items A).

Lemma nth_fmap_lt (f : num → num) (row : list num) (j : nat) :
  j < length row → nth j (f <$> row) zero = f (nth j row zero).
Proof.
  intros Hj. destruct (lookup_lt_is_Some_2 row j Hj) as [x Hx].
  rewrite (nth_lookup_Some row j zero x Hx).
  apply nth_lookup_Some. by rewrite list_lookup_fmap, Hx.
Qed.

Lemma nth_zip_bcast (f : num → num → num) (a b : list num) (j : nat) :
  length a = length b → j < length a →
  nth j (zip_bcast f a b) zero = f (nth j a zero) (nth j b zero).
Proof.
  intros Hab Hj. rewrite zip_bcast_same_length by done.
  destruct (lookup_lt_is_Some_2 a j Hj) as [x Hx].
  destruct (lookup_lt_is_Some_2 b j) as [y Hy]; [lia|].
  rewrite (nth_lookup_Some a j zero x Hx), (nth_lookup_Some b j zero y Hy).
  apply nth_lookup_Some. by rewrite lookup_zip_with, Hx, Hy.
Qed.

Lemma length_zip_bcast_same (f : num → num → num) (a b : list num) :
  length a = length b → length (zip_bcast f a b) = length a.
Proof.
  intros Hab. rewrite zip_bcast_same_length by done.
  rewrite length_zip_with. lia.
Qed.

(** Adding up rows of one width, seen at one column. *)
Lemma nth_foldl_zip_bcast (f : num → num → num) (m j : nat)
    (ys : list (list num)) :
  j < m → Forall (fun y => length y = m) ys →
  ∀ x : list num,
    length x = m →
    length (foldl (zip_bcast f) x ys) = m
    ∧ nth j (foldl (zip_bcast f) x ys) zero
      = foldl f (nth j x zero) ((fun y => nth j y zero) <$> ys).
Proof.
  intros Hj Hys. induction Hys as [|y ys Hy Hys IH]; intros x Hx; simpl.
  - done.
  - destruct (IH (zip_bcast f x y)) as [Hlen Hnth].
    { rewrite length_zip_bcast_same; congruence. }
    split; [done|]. rewrite Hnth. f_equal.
    apply nth_zip_bcast; [congruence | lia].
Qed.

Lemma fmap_zip_with_hom {A B C A' B' C' : Type}
    (h : C → C') (ha : A → A') (hb : B → B')
    (g : A → B → C) (g' : A' → B' → C') (P : A → Prop) (Q : B → Prop)
    (la : list A) (lb : list B) :
  Forall P la → Forall Q lb →
  (∀ a b, P a → Q b → h (g a b) = g' (ha a) (hb b)) →
  h <$> zip_with g la lb = zip_with g' (ha <$> la) (hb <$> lb).
Proof.
  intros Hla Hlb Hhom. revert lb Hlb.
  induction Hla as [|a la Ha Hla IH]; intros lb Hlb; [done|].
  destruct Hlb as [|b lb Hb Hlb]; [done|].
  csimpl. by rewrite Hhom, IH.
Qed.

Lemma fmap_ext_Forall {A B : Type} (f g : A → B) (P : A → Prop) (l : list A) :
  Forall P l → (∀ a, P a → f a = g a) → f <$> l = g <$> l.
Proof.
  intros Hl Hfg. induction Hl as [|a l Ha Hl IH]; [done|].
  csimpl. by rewrite Hfg, IH.
Qed.

Lemma fmap_zip_bcast_hom {A A' : Type} (h : A → A')
    (g : A → A → A) (g' : A' → A' → A') (P : A → Prop) (la lb : list A) :
  Forall P la → Forall P lb →
  (∀ a b, P a → P b → h (g a b) = g' (h a) (h b)) →
  h <$> zip_bcast g la lb = zip_bcast g' (h <$> la) (h <$> lb).
Proof.
  intros Hla Hlb Hhom. unfold zip_bcast. rewrite !length_fmap.
  case_decide as Hlen.
  { by apply (fmap_zip_with_hom h h h g g' P P). }
  destruct la as [|a [|a' la]].
  - destruct lb as [|b [|b' lb]]; done.
  - apply Forall_cons in Hla as [Ha _]. csimpl.
    rewrite <- !list_fmap_compose.
    apply (fmap_ext_Forall _ _ P); [done|]. intros b Hb. by apply Hhom.
  - destruct lb as [|b [|b' lb]].
    + done.
    + apply Forall_cons in Hlb as [Hb _]. csimpl.
      apply Forall_cons in Hla as [Ha Hla].
      apply Forall_cons in Hla as [Ha' Hla].
      rewrite !Hhom by done. do 2 f_equal.
      rewrite <- !list_fmap_compose.
      apply (fmap_ext_Forall _ _ P); [done|]. intros x Hx. by apply Hhom.
    + by apply (fmap_zip_with_hom h h h g g' P P).
Qed.
(** The terms subtracted from a row, seen at one column. *)
Lemma lagged_terms_col (rho : list num) (X : list (list num)) (m j t : nat) :
  j < m → Forall (fun row => length row = m) X →
  Forall (fun y => length y = m) (lagged_terms rho X t)
  ∧ (fun y => nth j y zero) <$> lagged_terms rho X t
    = lagged_terms rho ((fun row => nth j row zero) <$> X) t.
Proof.
  intros Hj HX. unfold lagged_terms.
  assert (Forall (fun row => length row = m) (reverse (take t X))) as Hrev.
  { apply Forall_reverse. by apply Forall_take. }
  split.
  - apply Forall_forall. intros y Hy.
    apply elem_of_zip_with in Hy as (r & x & -> & _ & Hx).
    rewrite Forall_forall in Hrev. simpl. rewrite length_fmap. by apply Hrev.
  - rewrite <- fmap_take, <- fmap_reverse.
    rewrite <- (list_fmap_id (take t rho)) at 2.
    apply (fmap_zip_with_hom _ id _ _ _ (fun _ => True)
             (fun row => length row = m)); [|done|].
    + by apply Forall_true.
    + intros r x _ Hx. simpl. apply nth_fmap_lt. lia.
Qed.

(** The AR filter of a well-formed 2-D array filters each column by
    itself. *)
Lemma whiten_recurrence_col (rho : list num) (X : matrix) (j : nat) :
  well_formed X → j < ishp X →
  well_formed (whiten_recurrence rho X)
  ∧ col j (whiten_recurrence rho X) = whiten_recurrence rho (col j X).
Proof.
  intros HX Hj.
  destruct (shape_whiten_recurrence rho X) as [HnW HsW].
  destruct (shape_whiten_recurrence rho (col j X)) as [HnC _].
  assert (∀ t x, items X !! t = Some x →
                 length (foldl (item_zip fsub) x
                           (lagged_terms rho (items X) t)) = ishp X
                 ∧ nth j (foldl (item_zip fsub) x
                            (lagged_terms rho (items X) t)) zero
                   = foldl fsub (nth j x zero)
                       (lagged_terms rho
                          ((fun row => nth j row zero) <$> items X) t))
    as Hrow.
  { intros t x Hx.
    destruct (lagged_terms_col rho (items X) (ishp X) j t Hj HX)
      as [Hterms Hcol].
    destruct (nth_foldl_zip_bcast fsub (ishp X) j _ Hj Hterms x) as [Hl Hn].
    { by apply (Forall_lookup_1 _ _ _ _ HX Hx). }
    split; [exact Hl|]. rewrite <- Hcol. exact Hn. }
  split.
  - unfold well_formed. rewrite HsW. apply Forall_lookup. intros t w Hw.
    destruct (lookup_lt_is_Some_2 (items X) t) as [x Hx].
    { apply lookup_lt_Some in Hw. unfold shape0 in HnW. lia. }
    rewrite (whiten_recurrence_row rho X t x Hx) in Hw. injection Hw as <-.
    by apply Hrow.
  - unfold col at 1. change tt with (ishp (whiten_recurrence rho (col j X))).
    assert ((fun row => nth j row zero) <$> items (whiten_recurrence rho X)
            = items (whiten_recurrence rho (col j X))) as ->.
    2:{ by destruct (whiten_recurrence rho (col j X)). }
    apply list_eq. intros t. rewrite list_lookup_fmap.
    destruct (items X !! t) as [x|] eqn:Hx.
    + rewrite (whiten_recurrence_row rho X t x Hx).
      rewrite (whiten_recurrence_row rho (col j X) t (nth j x zero)).
      2:{ simpl. by rewrite list_lookup_fmap, Hx. }
      simpl. f_equal. by apply Hrow.
    + apply lookup_ge_None_1 in Hx.
      rewrite (lookup_ge_None_2 (items (whiten_recurrence rho X)) t)
        by (unfold shape0 in HnW; lia).
      symmetry. apply lookup_ge_None_2.
      unfold shape0 in HnC. rewrite HnC. simpl. rewrite length_fmap. lia.
Qed.

Lemma whiten_col (k : model_kind) (X : matrix) (j : nat) :
  kind_ok k → well_formed X → j < ishp X →
  ∃ W, whiten k X = Ok W ∧ whiten k (col j X) = Ok (col j W)
       ∧ well_formed W ∧ ishp W = ishp X.
Proof.
  intros Hk HX Hj. destruct k as [|order rho]; simpl in *.
  - by exists X.
  - exists (whiten_recurrence (take (Z.to_nat order) rho) X).
    rewrite !ARModel_whiten_take by done.
    destruct (whiten_recurrence_col (take (Z.to_nat order) rho) X j HX Hj)
      as [Hwf Hcol].
    by rewrite Hcol.
Qed.
Lemma nth_replicate_zero (m j : nat) : nth j (replicate m zero) zero = zero.
Proof.
  rewrite nth_lookup. destruct (replicate m zero !! j) as [x|] eqn:Hx; [|done].
  by apply lookup_replicate in Hx as [-> _].
Qed.

Lemma Forall_zip_bcast {A : Type} (g : A → A → A) (P : A → Prop)
    (la lb : list A) :
  Forall P la → Forall P lb → (∀ a b, P a → P b → P (g a b)) →
  Forall P (zip_bcast g la lb).
Proof.
  intros Hla Hlb Hg.
  assert (Forall P (zip_with g la lb)) as Hzip.
  { apply Forall_forall. intros c Hc.
    apply elem_of_zip_with in Hc as (a & b & -> & Ha & Hb).
    rewrite Forall_forall in Hla, Hlb. by apply Hg; [apply Hla | apply Hlb]. }
  unfold zip_bcast. case_decide; [done|].
  rewrite Forall_forall in Hla, Hlb.
  destruct la as [|a [|a' la]]; [destruct lb as [|b [|b' lb]]; done| |].
  - apply Forall_forall. intros c Hc.
    apply list_elem_of_fmap in Hc as (b & -> & Hb).
    apply Hg; [apply Hla; by left | by apply Hlb].
  - destruct lb as [|b [|b' lb]]; [done| |done].
    apply Forall_forall. intros c Hc.
    apply list_elem_of_fmap in Hc as (x & -> & Hx).
    apply Hg; [by apply Hla | apply Hlb; by left].
Qed.

(** One item of a product, seen at one column. *)
Lemma lincomb_col (row : list num) (A : matrix) (j : nat) :
  well_formed A → j < ishp A →
  length (lincomb row A) = ishp A
  ∧ nth j (lincomb row A) zero = lincomb row (col j A).
Proof.
  intros HA Hj. unfold lincomb. simpl.
  assert (Forall (fun y => length y = ishp A)
            (zip_with (fun r a => fmul r <$> a) row (items A))) as Hterms.
  { apply Forall_forall. intros y Hy.
    apply elem_of_zip_with in Hy as (r & a & -> & _ & Ha).
    rewrite length_fmap. unfold well_formed in HA.
    rewrite Forall_forall in HA. by apply HA. }
  assert ((fun y => nth j y zero)
            <$> zip_with (fun r a => fmul r <$> a) row (items A)
          = zip_with (fun r a => fmul r a) row
              ((fun y => nth j y zero) <$> items A)) as Hcol.
  { rewrite <- (list_fmap_id row) at 2.
    apply (fmap_zip_with_hom _ id _ _ _ (fun _ => True)
             (fun y => length y = ishp A)); [by apply Forall_true | done |].
    intros r a _ Ha. simpl. apply nth_fmap_lt. lia. }
  rewrite <- Hcol.
  destruct (zip_with (fun r a => fmul r <$> a) row (items A)) as [|y ys].
  - simpl. by rewrite length_replicate, nth_replicate_zero.
  - apply Forall_cons in Hterms as [Hy Hys]. csimpl.
    by apply (nth_foldl_zip_bcast fadd (ishp A) j ys Hj Hys y).
Qed.

Lemma dot_col (M A C : matrix) (j : nat) :
  well_formed A → j < ishp A → dot M A = Ok C →
  dot M (col j A) = Ok (col j C) ∧ well_formed C ∧ ishp C = ishp A.
Proof.
  intros HA Hj. unfold dot, shape0. simpl. rewrite length_fmap.
  case_decide; [|done]. intros [= <-]. simpl.
  split; [|split; [|done]].
  - unfold col. simpl. do 2 f_equal. rewrite <- list_fmap_compose.
    apply list_fmap_ext. intros i row _. simpl.
    symmetry. apply (proj2 (lincomb_col row A j HA Hj)).
  - unfold well_formed. simpl. apply Forall_fmap, Forall_forall.
    intros row _. simpl. apply (proj1 (lincomb_col row A j HA Hj)).
Qed.

Lemma subtract_col (A B C : matrix) (j : nat) :
  well_formed A → well_formed B → ishp B = ishp A → j < ishp A →
  subtract A B = Ok C →
  subtract (col j A) (col j B) = Ok (col j C)
  ∧ well_formed C ∧ ishp C = ishp A.
Proof.
  intros HA HB Hs Hj. unfold subtract, broadcast2, shape0. simpl.
  rewrite !length_fmap, Hs, bdim_diag.
  destruct (bdim (length (items A)) (length (items B))) as [n|]; [|done].
  intros [= <-]. simpl.
  unfold well_formed in HA, HB. rewrite Hs in HB.
  split; [|split; [|done]].
  - unfold col. simpl. do 2 f_equal. symmetry.
    apply (fmap_zip_bcast_hom _ _ _ (fun row => length row = ishp A));
      [done | done |].
    intros a b Ha Hb. apply nth_zip_bcast; [congruence | lia].
  - unfold well_formed. simpl.
    apply Forall_zip_bcast; [done | done |].
    intros a b Ha Hb. rewrite length_zip_bcast_same; congruence.
Qed.

Lemma square_col (A : matrix) (j : nat) :
  well_formed A → j < ishp A →
  col j (square A) = square (col j A) ∧ well_formed (square A).
Proof.
  intros HA Hj. unfold well_formed in HA. split.
  - unfold col, square. simpl. f_equal. rewrite <- !list_fmap_compose.
    apply (fmap_ext_Forall _ _ _ _ HA). intros row Hrow. simpl.
    apply (nth_fmap_lt (fun x => fmul x x)). lia.
  - unfold well_formed, square. simpl. apply Forall_fmap.
    eapply Forall_impl; [exact HA|]. intros row Hrow. simpl.
    by rewrite length_fmap.
Qed.

Lemma sum0_col (A : matrix) (j : nat) :
  well_formed A → j < ishp A →
  length (sum0 A) = ishp A ∧ nth j (sum0 A) zero = sum0 (col j A).
Proof.
  intros HA Hj. unfold sum0, well_formed in *. simpl.
  destruct (items A) as [|v vs]; simpl.
  - by rewrite length_replicate, nth_replicate_zero.
  - apply Forall_cons in HA as [Hv Hvs].
    by apply (nth_foldl_zip_bcast fadd (ishp A) j vs Hj Hvs v).
Qed.
(** X10.  [fit] treats the columns of a 2-D response independently:
    when [fit(Y)] returns for a well-formed [Y], fitting column [j] of
    [Y] alone returns as well, and its coefficients, whitened response
    and whitened residuals are column [j] of those of [fit(Y)], its
    dispersion is entry [j] of the dispersion of [fit(Y)], and its
    covariance is the same. *)
Theorem X10_fit_column_by_column (est : estimator) (Y : matrix)
    (R : RegressionResults.t (list num)) (j : nat) :
  well_formed Y → j < ishp Y →
  OLSModel_fit est Y = Ok R →
  ∃ r : RegressionResults.t num,
    OLSModel_fit est (col j Y) = Ok r
    ∧ RegressionResults.theta r = col j (RegressionResults.theta R)
    ∧ RegressionResults.wY r = col j (RegressionResults.wY R)
    ∧ RegressionResults.wresid r = col j (RegressionResults.wresid R)
    ∧ RegressionResults.dispersion r
      = nth j (RegressionResults.dispersion R) zero
    ∧ RegressionResults.cov r = RegressionResults.cov R.
Proof.
  intros HY Hj Hfit.
  apply OLSModel_fit_inv in Hfit
    as (wY & beta & p & wresid & HwY & Hbeta & Hp & Hwresid & ->).
  pose proof (whiten_Ok_kind_ok _ _ _ HwY) as Hk.
  destruct (whiten_col (kind est) Y j Hk HY Hj)
    as (W & HW & HWc & HWwf & HWs).
  rewrite HwY in HW. injection HW as <-.
  assert (j < ishp wY) as HjW by (by rewrite HWs).
  destruct (dot_col _ _ _ j HWwf HjW Hbeta) as (Hbc & Hbwf & Hbs).
  assert (j < ishp beta) as Hjb by (by rewrite Hbs).
  destruct (dot_col _ _ _ j Hbwf Hjb Hp) as (Hpc & Hpwf & Hps).
  destruct (subtract_col wY p wresid j HWwf Hpwf) as (Hrc & Hrwf & Hrs);
    [congruence | done | done |].
  assert (j < ishp wresid) as Hjr by (by rewrite Hrs).
  destruct (square_col wresid j Hrwf Hjr) as [Hsq Hsqwf].
  destruct (sum0_col (square wresid) j Hsqwf Hjr) as [Hlen Hsum].
  eexists. split.
  { unfold OLSModel_fit.
    rewrite HWc, bind_Ok, Hbc, bind_Ok, Hpc, bind_Ok, Hrc, bind_Ok.
    reflexivity. }
  simpl. repeat split; try done.
  unfold item_div. simpl. rewrite <- Hsq, <- Hsum.
  symmetry. apply (nth_fmap_lt (fun x => fdiv x _)).
  rewrite Hlen. exact Hjr.
Qed.
End Columns.

Section ColumnInstances.
Import Rat.

(** The second column of the two-column response [Y1], fitted alone. *)
Lemma X10_fit_column_by_column_witness :
  ∃ r, OLSModel_fit est0 (col 1 Y1) = Ok r
       ∧ RegressionResults.theta r = vec [2; 4]%Q
       ∧ RegressionResults.dispersion r = 36%Q.
Proof.
  assert (OLSModel_fit est0 Y1
          = Ok (RegressionResults.init (mat 2 [[1; 2]; [3; 4]]%Q) Y1 est0 Y1
                  (mat 2 [[0; 0]; [0; 0]; [5; 6]]%Q)
                  (mat 2 [[1; 0]; [0; 1]]%Q) [25; 36]%Q None)) as HR.
  { vm_compute. reflexivity. }
  assert (well_formed Y1) as Hwf by (repeat constructor).
  assert (1 < ishp Y1) as Hj by (vm_compute; lia).
  destruct (X10_fit_column_by_column est0 Y1 _ 1 Hwf Hj HR)
    as (r & Hr & Htheta & _ & _ & Hd & _).
  exists r. split; [exact Hr|]. split; [exact Htheta | exact Hd].
Defined.
End ColumnInstances.
